(** * scripts/add-map.py: adding a map entry to a CS2 map group

    A shallow embedding of [scripts/add-map.py] and the properties of its
    block locator, entry editor and list appender.

    Conventions of the embedding.
    - A Python [str] is a [text]: the list of its Unicode code points, each a
      number in [N].  String literals of the script are written with [str],
      which maps the bytes of an ASCII literal to their code points.
    - The document ([lines]) is a [list text]; every line keeps its line
      terminator, as [splitlines(keepends=True)] leaves it.
    - A [while] loop that walks an index [i] up to [len(lines)] is a
      structural recursion over the suffix [skipn i lines], carrying [i].
    - [AddMapError] is the [Error] case of [Result]; its constructors are the
      messages the script raises.
    - The file system is a function from paths to optional contents; a
      content is the decoded text of the file, before the newline translation
      of text-mode reading.  Directories, permissions and I/O failures are
      not part of the model, and the line separator written is [\n].
    - [print] is a list of messages.
    - A [str] may hold lone surrogates: a command-line argument does when
      its bytes are not valid UTF-8.  The UTF-8 encoder behind [write_text],
      the appending [write] and [print] refuses them, and the script then
      stops with an uncaught [UnicodeEncodeError], [write_text] having
      emptied the file first.  The writing functions and the command are
      modelled on texts the encoder takes ([utf8_encodable]); text read from
      a file is always one, since [errors="replace"] leaves no surrogate.
      [Args] is the namespace that [parse_args] returned: command lines that
      [argparse] refuses are not runs of [main] here. *)

From Stdlib Require Import String Ascii.
From Stdlib Require Import List Bool Arith ZArith NArith Lia.
Import ListNotations.

Set Implicit Arguments.

(** ** Characters and text *)

Definition char := N.
Definition text := list char.

Definition str (s : string) : text := map N_of_ascii (list_ascii_of_string s).

Definition TAB : char := 9%N.
Definition LF : char := 10%N.
Definition CR : char := 13%N.
Definition DQUOTE : char := 34%N.
Definition LBRACE : char := 123%N.
Definition RBRACE : char := 125%N.

(** [f'"{s}"'] *)
Definition quoted (s : text) : text := DQUOTE :: s ++ [DQUOTE].

(** [str.isspace] on one code point: the characters [str.strip] removes. *)
Definition is_space (c : char) : bool :=
  ((9 <=? c) && (c <=? 13) || (28 <=? c) && (c <=? 31) || (c =? 32)
   || (c =? 133) || (c =? 160) || (c =? 5760)
   || (8192 <=? c) && (c <=? 8202) || (c =? 8232) || (c =? 8233)
   || (c =? 8239) || (c =? 8287) || (c =? 12288))%N.

(** The line boundaries of [str.splitlines]. *)
Definition is_linebreak (c : char) : bool :=
  ((10 <=? c) && (c <=? 13) || (28 <=? c) && (c <=? 30) || (c =? 133)
   || (c =? 8232) || (c =? 8233))%N.

Fixpoint text_eqb (a b : text) : bool :=
  match a, b with
  | [], [] => true
  | x :: a', y :: b' => N.eqb x y && text_eqb a' b'
  | _, _ => false
  end.

(** [s.startswith(prefix)] *)
Fixpoint startswith (prefix s : text) : bool :=
  match prefix, s with
  | [], _ => true
  | p :: prefix', c :: s' => N.eqb p c && startswith prefix' s'
  | _ :: _, [] => false
  end.

(** [c in s] for a one-character [c] *)
Definition contains (c : char) (s : text) : bool := existsb (N.eqb c) s.

(** [s.count(c)] for a one-character [c] *)
Fixpoint count (c : char) (s : text) : Z :=
  match s with
  | [] => 0%Z
  | x :: s' => ((if N.eqb c x then 1 else 0) + count c s')%Z
  end.

Fixpoint dropwhile (p : char -> bool) (s : text) : text :=
  match s with
  | [] => []
  | c :: s' => if p c then dropwhile p s' else s
  end.

Definition lstrip (s : text) : text := dropwhile is_space s.
Definition rstrip (s : text) : text := rev (dropwhile is_space (rev s)).
Definition strip (s : text) : text := rstrip (lstrip s).

(** [s.split(sep)] for a one-character [sep]; [cur] is the piece being read,
    reversed. *)
Fixpoint split_acc (sep : char) (cur : text) (s : text) : list text :=
  match s with
  | [] => [rev cur]
  | c :: s' =>
      if N.eqb c sep then rev cur :: split_acc sep [] s'
      else split_acc sep (c :: cur) s'
  end.

Definition split (sep : char) (s : text) : list text := split_acc sep [] s.

(** [text.splitlines(keepends)]; [cur] is the line being read, reversed.  A
    carriage return followed by a line feed is one boundary. *)
Fixpoint splitlines_acc (keepends : bool) (cur : text) (s : text) : list text :=
  match s with
  | [] => match cur with [] => [] | _ => [rev cur] end
  | c :: s' =>
      if is_linebreak c then
        match s' with
        | c2 :: s'' =>
            if N.eqb c CR && N.eqb c2 LF
            then rev (if keepends then c2 :: c :: cur else cur)
                 :: splitlines_acc keepends [] s''
            else rev (if keepends then c :: cur else cur)
                 :: splitlines_acc keepends [] s'
        | [] => [rev (if keepends then c :: cur else cur)]
        end
      else splitlines_acc keepends (c :: cur) s'
  end.

Definition splitlines (keepends : bool) (s : text) : list text :=
  splitlines_acc keepends [] s.

(** ["".join(lines)] *)
Definition join (lines : list text) : text := concat lines.

(** [line[: len(line) - len(line.lstrip())]] *)
Definition leading_ws (line : text) : text :=
  firstn (length line - length (lstrip line)) line.

(** ** Errors *)

Inductive AddMapError : Type :=
| MissingFile (path : string)          (* Missing file: <path> *)
| NoMapgroups                          (* Could not find a "mapgroups" section. *)
| MalformedMapgroups                   (* Malformed "mapgroups" block (missing "{"). *)
| GroupNotFound (group_name : text)    (* Group "<g>" not found in mapgroups. *)
| MalformedGroup (group_name : text)   (* Malformed group "<g>" (missing "{"). *)
| MalformedMaps (group_name : text)    (* Malformed "maps" block in group "<g>". *)
| NoMapsBlock (group_name : text).     (* No "maps" block found in group "<g>". *)

Inductive Result (A : Type) : Type :=
| Ok (a : A)
| Error (e : AddMapError).
Arguments Ok {A} a.
Arguments Error {A} e.

(** ** Entry editor *)

(** [infer_maps_indent]: the body of the [for] loop, over the indices of
    [range(start_idx, end_idx)].  The first test is the source's
    [A and B and C or D], which Python reads as [(A and B and C) or D].
    [lines[i]] is [nth i lines []]: the locator only passes
    [end_idx < len(lines)], so no index is out of range. *)
Fixpoint infer_maps_indent_loop (lines : list text) (idxs : list nat) : text :=
  match idxs with
  | [] => repeat TAB 4
  | i :: rest =>
      let line := nth i lines [] in
      let stripped := strip line in
      if (startswith [DQUOTE] stripped && contains DQUOTE stripped
          && contains TAB line) || contains TAB line
      then leading_ws line
      else if startswith [DQUOTE] stripped && negb (contains TAB line)
      then leading_ws line
      else infer_maps_indent_loop lines rest
  end.

Definition infer_maps_indent (lines : list text) (start_idx end_idx : nat) : text :=
  infer_maps_indent_loop lines (seq start_idx (end_idx - start_idx)).

Fixpoint current_maps_loop (lines : list text) (idxs : list nat) : list text :=
  match idxs with
  | [] => []
  | i :: rest =>
      let stripped := strip (nth i lines []) in
      if startswith [DQUOTE] stripped && contains DQUOTE stripped
      then nth 1 (split DQUOTE stripped) [] :: current_maps_loop lines rest
      else current_maps_loop lines rest
  end.

Definition current_maps_in_block (lines : list text) (start_idx end_idx : nat)
  : list text :=
  current_maps_loop lines (seq start_idx (end_idx - start_idx)).

(** An [Optional[str]] is true in a condition when it is a non-empty string. *)
Definition truthy (workshop_id : option text) : bool :=
  match workshop_id with
  | Some (_ :: _) => true
  | _ => false
  end.

Definition format_map_key (map_name : text) (workshop_id : option text) : text :=
  match workshop_id with
  | Some id =>
      if truthy workshop_id then str "workshop/" ++ id ++ str "/" ++ map_name
      else map_name
  | None => map_name
  end.

(** [list.insert(idx, x)] for [idx >= 0]; an index past the end appends. *)
Definition list_insert (A : Type) (idx : nat) (x : A) (l : list A) : list A :=
  firstn idx l ++ x :: skipn idx l.

Definition new_entry_line (indent map_key : text) : text :=
  indent ++ quoted map_key ++ [TAB; TAB] ++ quoted [] ++ [LF].

(** [insert_map] mutates [lines] in place; here it returns the new list. *)
Definition insert_map (lines : list text) (start_idx end_idx : nat)
    (indent map_key position : text) : list text :=
  let new_line := new_entry_line indent map_key in
  if text_eqb position (str "start")
  then list_insert start_idx new_line lines
  else list_insert end_idx new_line lines.

(** ** Block locator *)

(** [while i < len(lines) and not p(lines[i]): i += 1]; [None] when the loop
    runs off the end of the document. *)
Fixpoint scan_until (p : text -> bool) (rest : list text) (i : nat) : option nat :=
  match rest with
  | [] => None
  | line :: rest' => if p line then Some i else scan_until p rest' (S i)
  end.

Definition is_mapgroups_header (line : text) : bool :=
  startswith (quoted (str "mapgroups")) (lstrip line).

Definition has_lbrace (line : text) : bool := contains LBRACE line.

(** The two guarded updates of a brace depth by one line. *)
Definition walk_braces (depth : Z) (line : text) : Z :=
  let depth := if contains LBRACE line then (depth + count LBRACE line)%Z else depth in
  if contains RBRACE line then (depth - count RBRACE line)%Z else depth.

(** Step 3: the loop that looks for the group header while the depth of the
    mapgroups block is positive; [None] is [group_start == -1]. *)
Fixpoint find_group_header (group_name : text) (rest : list text) (i : nat)
    (brace_depth : Z) : option nat :=
  match rest with
  | [] => None
  | line :: rest' =>
      if (brace_depth >? 0)%Z then
        let stripped := strip line in
        let brace_depth := walk_braces brace_depth line in
        if startswith (quoted group_name) stripped then Some i
        else find_group_header group_name rest' (S i) brace_depth
      else None
  end.

(** The innermost loop: the line on which the depth of the maps block comes
    back to zero. *)
Fixpoint find_maps_end (rest : list text) (m : nat) (maps_brace_depth : Z)
  : option nat :=
  match rest with
  | [] => None
  | line :: rest' =>
      if (maps_brace_depth >? 0)%Z then
        let d := (maps_brace_depth + count LBRACE line - count RBRACE line)%Z in
        if (d =? 0)%Z then Some m else find_maps_end rest' (S m) d
      else None
  end.

(** Step 5: the walk through the group, from the line after its opening
    brace.  [rest] is [skipn j lines]. *)
Fixpoint find_maps_block (lines : list text) (group_name : text) (group_start : nat)
    (rest : list text) (j : nat) (group_brace_depth : Z)
  : Result (nat * nat * nat * text) :=
  match rest with
  | [] => Error (NoMapsBlock group_name)
  | line :: rest' =>
      if (group_brace_depth >? 0)%Z then
        let stripped := strip line in
        if startswith (quoted (str "maps")) stripped then
          match scan_until has_lbrace rest j with
          | None => Error (MalformedMaps group_name)
          | Some k =>
              let maps_start_idx := k + 1 in
              match find_maps_end (skipn maps_start_idx lines) maps_start_idx 1 with
              | Some maps_end_idx =>
                  let indent := infer_maps_indent lines maps_start_idx maps_end_idx in
                  Ok (group_start, maps_start_idx, maps_end_idx, indent)
              | None => Error (MalformedMaps group_name)
              end
          end
        else find_maps_block lines group_name group_start rest' (S j)
               (walk_braces group_brace_depth line)
      else Error (NoMapsBlock group_name)
  end.

Definition find_group_and_maps_block (lines : list text) (group_name : text)
  : Result (nat * nat * nat * text) :=
  match scan_until is_mapgroups_header lines 0 with
  | None => Error NoMapgroups
  | Some i =>
      match scan_until has_lbrace (skipn (i + 1) lines) (i + 1) with
      | None => Error MalformedMapgroups
      | Some i =>
          match find_group_header group_name (skipn (i + 1) lines) (i + 1) 1 with
          | None => Error (GroupNotFound group_name)
          | Some group_start =>
              match scan_until has_lbrace (skipn group_start lines) group_start with
              | None => Error (MalformedGroup group_name)
              | Some j =>
                  find_maps_block lines group_name group_start
                    (skipn (j + 1) lines) (j + 1) 1
              end
          end
      end
  end.

(** ** Files and the command *)

(** File contents are texts; a path names at most one file. *)
Definition FS := string -> option text.

Definition fs_write (fs : FS) (path : string) (content : text) : FS :=
  fun p => if String.eqb p path then Some content else fs p.

(** Text-mode reading translates every [\r\n] and lone [\r] into [\n]. *)
Fixpoint universal_newlines (s : text) : text :=
  match s with
  | [] => []
  | c :: s' =>
      if N.eqb c CR then
        match s' with
        | c2 :: s'' => if N.eqb c2 LF then LF :: universal_newlines s''
                       else LF :: universal_newlines s'
        | [] => [LF]
        end
      else c :: universal_newlines s'
  end.

(** [path.read_text(...)]; [None] is [FileNotFoundError]. *)
Definition read_text (fs : FS) (path : string) : option text :=
  option_map universal_newlines (fs path).

(** What [data.encode("utf-8")] accepts: code points that a [str] can hold
    and that are no surrogates. *)
Definition utf8_encodable (data : text) : bool :=
  forallb (fun c => ((c <? 55296) || (57343 <? c)) && (c <=? 1114111))%N data.

(** [path.write_text(data, encoding="utf-8")] for [data] that the encoder
    takes; the line separator of the platform is [\n].  On other [data] the
    call empties the file and raises [UnicodeEncodeError], which nothing in
    the script catches. *)
Definition write_text (fs : FS) (path : string) (data : text) : FS :=
  fs_write fs path data.

Definition read_lines (fs : FS) (path : string) : Result (list text) :=
  match read_text fs path with
  | Some t => Ok (splitlines true t)
  | None => Error (MissingFile path)
  end.

Definition write_lines (fs : FS) (path : string) (lines : list text) : FS :=
  write_text fs path (join lines).

(** [path.with_suffix(path.suffix + ".bak")] *)
Definition backup_path (path : string) : string := (path ++ ".bak")%string.

(** [shutil.copy2(path, backup)]: the backup holds the bytes of [path]. *)
Definition backup_file (fs : FS) (path : string) : FS * string :=
  let backup := backup_path path in
  ((fun p => if String.eqb p backup then fs path else fs p), backup).

(** The lines the script prints. *)
Inductive Msg : Type :=
| SkipMap (group_name map_key : text)              (* [skip] Map already present *)
| Backup (path : string)                           (* [backup] <path> *)
| AddedMap (group_name map_key : text) (dry : bool) (* [ok] Added map ... *)
| Subscribed (workshop_id : text) (dry : bool)     (* [ok] Subscribed Workshop ID *)
| SkipWorkshop (workshop_id : text)                (* [skip] Workshop ID already present *)
| CustomMissing                                    (* Error: Custom files do not exist *)
| GamemodesMissing (path : string)                 (* Error: Missing <path>. *)
| Failed (e : AddMapError).                        (* Error: <e> *)

(** [set(line.strip() for line in text.splitlines() if line.strip())]; only
    membership is asked of the set, so it is kept as a list. *)
Definition existing_ids (t : text) : list text :=
  map strip (filter (fun line => match strip line with [] => false | _ => true end)
               (splitlines false t)).

(** The content of a file, empty when the file is absent. *)
Definition opt_text (o : option text) : text :=
  match o with Some t => t | None => [] end.

(** [add_workshop_id]: the new file system and the value returned.  Opening
    the file for appending creates it when it is absent. *)
Definition add_workshop_id (fs : FS) (file_path : string) (workshop_id : text)
    (dry_run : bool) : FS * bool :=
  let existing :=
    match fs file_path with
    | Some _ =>
        match read_text fs file_path with
        | Some t => existing_ids t
        | None => []
        end
    | None => []
    end in
  if existsb (text_eqb workshop_id) existing then (fs, false)
  else if negb dry_run then
    (fs_write fs file_path (opt_text (fs file_path) ++ workshop_id ++ [LF]), true)
  else (fs, true).

(** [add_map_to_group]: the new file system and the lines printed, or the
    [AddMapError] raised.  Every error is raised before the first print and
    the first write. *)
Definition add_map_to_group (fs : FS) (gamemodes_path subscribed_file_ids_path : string)
    (group_name map_name : text) (workshop_id : option text) (dry_run : bool)
    (position : text) : Result (FS * list Msg) :=
  match read_lines fs gamemodes_path with
  | Error e => Error e
  | Ok lines =>
      let map_key := format_map_key map_name workshop_id in
      match find_group_and_maps_block lines group_name with
      | Error e => Error e
      | Ok (group_start, maps_start, maps_end, indent) =>
          let maps_list := current_maps_in_block lines maps_start maps_end in
          let '(fs, out) :=
            if existsb (text_eqb map_key) maps_list
            then (fs, [SkipMap group_name map_key])
            else
              let '(fs, out) :=
                if negb dry_run
                then let '(fs, backup) := backup_file fs gamemodes_path in
                     (fs, [Backup backup])
                else (fs, []) in
              let lines := insert_map lines maps_start maps_end indent map_key position in
              let fs := if negb dry_run then write_lines fs gamemodes_path lines else fs in
              (fs, out ++ [AddedMap group_name map_key dry_run]) in
          if truthy workshop_id then
            let '(fs, added) :=
              add_workshop_id fs subscribed_file_ids_path (opt_text workshop_id) dry_run in
            if added
            then Ok (fs, out ++ [Subscribed (opt_text workshop_id) dry_run])
            else Ok (fs, out ++ [SkipWorkshop (opt_text workshop_id)])
          else Ok (fs, out)
      end
  end.

Definition resolve_paths (use_custom : bool) : string * string :=
  if use_custom
  then ("custom_files/gamemodes_server.txt"%string,
        "custom_files/subscribed_file_ids.txt"%string)
  else ("game/csgo/gamemodes_server.txt"%string,
        "game/csgo/subscribed_file_ids.txt"%string).

(** The parsed command line. *)
Record Args : Type := {
  group_name : text;
  map_name : text;
  workshop_id : option text;
  custom : bool;
  dry_run : bool;
  position : text
}.

Definition exists_file (fs : FS) (path : string) : bool :=
  match fs path with Some _ => true | None => false end.

(** [main]: the new file system, the lines printed and the exit code. *)
Definition main (args : Args) (fs : FS) : FS * list Msg * Z :=
  let '(gamemodes_path, subscribed_path) := resolve_paths (custom args) in
  if custom args && (negb (exists_file fs gamemodes_path)
                     || negb (exists_file fs subscribed_path))
  then (fs, [CustomMissing], 1%Z)
  else if negb (custom args) && negb (exists_file fs gamemodes_path)
  then (fs, [GamemodesMissing gamemodes_path], 1%Z)
  else
    match add_map_to_group fs gamemodes_path subscribed_path (group_name args)
            (map_name args) (workshop_id args) (dry_run args) (position args) with
    | Ok (fs', out) => (fs', out, 0%Z)
    | Error e => (fs, [Failed e], 2%Z)
    end.

(** ** The specification's reading of two steps *)

Definition starts_quoted (line : text) : bool := startswith [DQUOTE] (strip line).

(** The leading whitespace of the first line, among the lines at [idxs],
    whose trimmed content starts with a double quote; four tabs if there is
    none. *)
Fixpoint first_quoted_indent (lines : list text) (idxs : list nat) : text :=
  match idxs with
  | [] => repeat TAB 4
  | i :: rest =>
      if starts_quoted (nth i lines []) then leading_ws (nth i lines [])
      else first_quoted_indent lines rest
  end.

(** The indices strictly between [start_idx] and [end_idx]. *)
Definition strictly_between (start_idx end_idx : nat) : list nat :=
  seq (S start_idx) (end_idx - S start_idx).

(** The brace depth, updated line by line, stays positive to the end of the
    document. *)
Fixpoint depth_stays_positive (rest : list text) (depth : Z) : bool :=
  match rest with
  | [] => true
  | line :: rest' =>
      let d := (depth + count LBRACE line - count RBRACE line)%Z in
      (d >? 0)%Z && depth_stays_positive rest' d
  end.

(** The mapgroups section has an opening brace and the depth opened there
    never returns to zero. *)
Definition mapgroups_unterminated (lines : list text) : bool :=
  match scan_until is_mapgroups_header lines 0 with
  | None => false
  | Some i =>
      match scan_until has_lbrace (skipn (i + 1) lines) (i + 1) with
      | None => false
      | Some k => depth_stays_positive (skipn (k + 1) lines) 1
      end
  end.

(** What a run reports, without the dry-run marker and the backup notice. *)
Inductive Outcome : Type :=
| MapInserted | MapAlreadyPresent | IdAdded | IdAlreadyPresent
| Precondition | CoreFailure (e : AddMapError).

Fixpoint outcomes (out : list Msg) : list Outcome :=
  match out with
  | [] => []
  | SkipMap _ _ :: out' => MapAlreadyPresent :: outcomes out'
  | Backup _ :: out' => outcomes out'
  | AddedMap _ _ _ :: out' => MapInserted :: outcomes out'
  | Subscribed _ _ :: out' => IdAdded :: outcomes out'
  | SkipWorkshop _ :: out' => IdAlreadyPresent :: outcomes out'
  | CustomMissing :: out' => Precondition :: outcomes out'
  | GamemodesMissing _ :: out' => Precondition :: outcomes out'
  | Failed e :: out' => CoreFailure e :: outcomes out'
  end.

(** ** Sample documents *)

(** A line indented by [n] tabs. *)
Definition ln (n : nat) (s : text) : text := repeat TAB n ++ s ++ [LF].

(** A line indented by [n] spaces. *)
Definition sp (n : nat) (s : text) : text := repeat 32%N n ++ s ++ [LF].

Definition entry (key : text) : text := quoted key ++ [TAB; TAB] ++ quoted [].

(** A gamemodes file with one group, [mg_active], holding the lines [body]
    in its maps block; the block's content starts at line 6. *)
Definition gamemodes (body : list text) : list text :=
  [ ln 0 (quoted (str "mapgroups")); ln 0 (str "{");
    ln 1 (quoted (str "mg_active")); ln 1 (str "{");
    ln 2 (quoted (str "maps")); ln 2 (str "{") ]
  ++ body ++
  [ ln 2 (str "}"); ln 1 (str "}"); ln 0 (str "}") ].

Definition doc_dust2 : list text := gamemodes [ln 3 (entry (str "de_dust2"))].

Definition doc_workshop : list text :=
  gamemodes [ln 3 (entry (str "workshop/12345/de_dust2"))].

(** One entry, indented with six spaces and without any tab. *)
Definition doc_spaces : list text :=
  gamemodes [sp 6 (quoted (str "de_dust2") ++ str " " ++ quoted [])].

(** A comment line with a tab, then an entry indented with four spaces. *)
Definition doc_comment : list text :=
  gamemodes [sp 2 (str "// active duty"); ln 1 (str "// maps");
             sp 4 (quoted (str "de_dust2") ++ str " " ++ quoted [])].

(** The document stops inside the mapgroups section. *)
Definition doc_unterminated : list text :=
  firstn 8 doc_dust2.

Definition gm_path : string := "game/csgo/gamemodes_server.txt".
Definition sub_path : string := "game/csgo/subscribed_file_ids.txt".

Definition fs_of (gamemodes_text : option text) (ids : option text) : FS :=
  fun p => if String.eqb p gm_path then gamemodes_text
           else if String.eqb p sub_path then ids else None.

Definition cli (g m : string) (w : option text) (dry : bool) (pos : string) : Args :=
  {| group_name := str g; map_name := str m; workshop_id := w; custom := false;
     dry_run := dry; position := str pos |}.

Definition set_workshop_id (args : Args) (w : option text) : Args :=
  {| group_name := group_name args; map_name := map_name args; workshop_id := w;
     custom := custom args; dry_run := dry_run args; position := position args |}.


(** Whether the token is among the non-blank trimmed lines of the file. *)
Definition is_subscribed (fs : FS) (file_path : string) (workshop_id : text) : bool :=
  existsb (text_eqb workshop_id)
    (existing_ids (universal_newlines (opt_text (fs file_path)))).

(** ** Shapes of texts and lines *)

Definition no_linebreak (s : text) : bool :=
  forallb (fun c => negb (is_linebreak c)) s.

Definition no_cr (s : text) : bool := forallb (fun c => negb (N.eqb c CR)) s.

(** The text is empty or ends with a line boundary. *)
Definition terminated (s : text) : bool :=
  match rev s with
  | [] => true
  | c :: _ => is_linebreak c
  end.

(** [c] and the start of [rest] are the two halves of a [\r\n]. *)
Definition crlf_split (c : char) (rest : text) : bool :=
  N.eqb c CR && match rest with c2 :: _ => N.eqb c2 LF | [] => false end.

(** A line with its terminator: one line boundary, other than a carriage
    return, at the end and none before. *)
Definition complete_line (line : text) : bool :=
  match rev line with
  | [] => false
  | c :: body => is_linebreak c && negb (N.eqb c CR) && no_linebreak body
  end.

(** The lines of a text without carriage returns: complete lines, the last
    of which may lack its terminator. *)
Fixpoint well_split (lines : list text) : bool :=
  match lines with
  | [] => true
  | [line] =>
      complete_line line
      || (match line with [] => false | _ => true end) && no_linebreak line
  | line :: rest => complete_line line && well_split rest
  end.

(** A token that a line of the list file can hold as it is: not empty, no
    whitespace at either end, no line boundary inside. *)
Definition plain_token (tok : text) : bool :=
  match tok with [] => false | _ => true end
  && text_eqb (strip tok) tok && no_linebreak tok.

(** A key that an entry line can hold as it is: no double quote, no line
    boundary, and as many opening as closing braces. *)
Definition plain_key (key : text) : bool :=
  negb (contains DQUOTE key) && no_linebreak key
  && (count LBRACE key =? count RBRACE key)%Z.

(** ** The locator in two stages *)

(** The loop of step 5 up to the line of the maps header. *)
Fixpoint find_maps_header (rest : list text) (j : nat) (group_brace_depth : Z)
  : option nat :=
  match rest with
  | [] => None
  | line :: rest' =>
      if (group_brace_depth >? 0)%Z then
        if startswith (quoted (str "maps")) (strip line) then Some j
        else find_maps_header rest' (S j) (walk_braces group_brace_depth line)
      else None
  end.

(** Steps 1 to 5 up to the opening brace of the maps block: the group header
    line and the first line inside the maps block. *)
Definition maps_block_start (lines : list text) (group_name : text)
  : option (nat * nat) :=
  match scan_until is_mapgroups_header lines 0 with
  | None => None
  | Some i0 =>
  match scan_until has_lbrace (skipn (i0 + 1) lines) (i0 + 1) with
  | None => None
  | Some i1 =>
  match find_group_header group_name (skipn (i1 + 1) lines) (i1 + 1) 1 with
  | None => None
  | Some group_start =>
  match scan_until has_lbrace (skipn group_start lines) group_start with
  | None => None
  | Some j =>
  match find_maps_header (skipn (j + 1) lines) (j + 1) 1 with
  | None => None
  | Some jm =>
  match scan_until has_lbrace (skipn jm lines) jm with
  | None => None
  | Some k => Some (group_start, k + 1)
  end end end end end end.

(** A line that leaves a brace depth as it is. *)
Definition neutral (line : text) : bool :=
  (count LBRACE line =? count RBRACE line)%Z.

(** A blank line of three tabs before the only entry. *)
Definition doc_blank : list text :=
  gamemodes [ln 3 []; ln 3 (entry (str "de_dust2"))].

(** ** Spans and depths *)

(** The lines at the indices [a], ..., [b - 1]. *)
Definition slice (lines : list text) (a b : nat) : list text :=
  firstn (b - a) (skipn a lines).

(** The brace depth after the lines [ls], from the depth [depth] before
    them. *)
Definition depth_after (depth : Z) (ls : list text) : Z :=
  fold_left (fun d line => (d + count LBRACE line - count RBRACE line)%Z) ls depth.

(** ** Readings of the document *)

(** The line that opens the mapgroups section: the first line with an
    opening brace behind the first mapgroups header line. *)
Definition mapgroups_open (lines : list text) : option nat :=
  match scan_until is_mapgroups_header lines 0 with
  | None => None
  | Some i => scan_until has_lbrace (skipn (i + 1) lines) (i + 1)
  end.

(** The trimmed content of the line starts with the quoted group name. *)
Definition starts_with_group (group_name line : text) : bool :=
  startswith (quoted group_name) (strip line).

(** Steps 4 and 5 of the locator, from a group header line on. *)
Definition locate_from_group (lines : list text) (group_name : text) (group_start : nat)
  : Result (nat * nat * nat * text) :=
  match scan_until has_lbrace (skipn group_start lines) group_start with
  | None => Error (MalformedGroup group_name)
  | Some j =>
      find_maps_block lines group_name group_start (skipn (j + 1) lines) (j + 1) 1
  end.

(** The document stops inside the mapgroups section, and the name of the
    group stands before the opening brace of the section only. *)
Definition doc_early_name : list text :=
  [ ln 0 (quoted (str "mapgroups")); ln 0 (quoted (str "mg_active"));
    ln 0 (str "{"); ln 1 (quoted (str "mg_other")); ln 1 (str "{") ].

(** [line] holds an entry for [key]: behind leading whitespace, the key
    between two double quotes; the key itself holds no double quote. *)
Definition entry_line_for (key line : text) : bool :=
  negb (contains DQUOTE key) && startswith (quoted key) (lstrip line).

(** The lines [ls] hold the entries [ks], in order: every line whose trimmed
    content starts with a double quote is an entry line for the next key,
    and the other lines hold no entry. *)
Fixpoint block_holds (ls : list text) (ks : list text) : bool :=
  match ls with
  | [] => match ks with [] => true | _ :: _ => false end
  | line :: ls' =>
      if starts_quoted line then
        match ks with
        | k :: ks' => entry_line_for k line && block_holds ls' ks'
        | [] => false
        end
      else block_holds ls' ks
  end.

(** * Properties *)

(** ** Text and list facts *)

Lemma text_eqb_eq (a b : text) : text_eqb a b = true <-> a = b.
Proof.
  revert b; induction a as [|x a IH]; intros [|y b]; simpl; split;
    try congruence; try reflexivity.
  - intros H. apply andb_true_iff in H as [Hx Hab].
    apply N.eqb_eq in Hx. apply IH in Hab. congruence.
  - intros H. injection H as -> ->. rewrite N.eqb_refl. simpl. now apply IH.
Qed.

Lemma text_eqb_refl (a : text) : text_eqb a a = true.
Proof. now apply text_eqb_eq. Qed.

Lemma text_eqb_neq (a b : text) : text_eqb a b = false <-> a <> b.
Proof.
  destruct (text_eqb a b) eqn:E.
  - apply text_eqb_eq in E. split; congruence.
  - split; [|reflexivity]. intros _ H. apply text_eqb_eq in H. congruence.
Qed.

Lemma existsb_text_eqb (k : text) (l : list text) :
  existsb (text_eqb k) l = true <-> In k l.
Proof.
  rewrite existsb_exists. split.
  - intros (x & Hx & E). apply text_eqb_eq in E. now subst.
  - intros H. exists k. split; [assumption|apply text_eqb_refl].
Qed.

Lemma count_nonneg (c : char) (s : text) : (0 <= count c s)%Z.
Proof. induction s as [|x s IH]; simpl; [lia|]. destruct (N.eqb c x); lia. Qed.

Lemma contains_false_count (c : char) (s : text) :
  contains c s = false -> count c s = 0%Z.
Proof.
  unfold contains. induction s as [|x s IH]; simpl; [reflexivity|].
  intros H. apply orb_false_iff in H as [Hx Hs]. rewrite Hx. now rewrite IH.
Qed.

Lemma count_app (c : char) (a b : text) :
  count c (a ++ b) = (count c a + count c b)%Z.
Proof. induction a as [|x a IH]; simpl; [reflexivity|]. rewrite IH. lia. Qed.

Lemma walk_braces_eq (depth : Z) (line : text) :
  walk_braces depth line = (depth + count LBRACE line - count RBRACE line)%Z.
Proof.
  unfold walk_braces.
  destruct (contains LBRACE line) eqn:EL; destruct (contains RBRACE line) eqn:ER;
    try (apply contains_false_count in EL); try (apply contains_false_count in ER);
    lia.
Qed.

Lemma skipn_cons_inv (A : Type) (j : nat) (l : list A) (x : A) (r : list A) (d : A) :
  skipn j l = x :: r -> skipn (S j) l = r /\ nth j l d = x /\ j < length l.
Proof.
  revert l; induction j as [|j IH]; intros [|y l]; simpl; try discriminate.
  - intros H. injection H as -> ->. repeat split. lia.
  - intros H. destruct (IH _ H) as (H1 & H2 & H3). repeat split; auto. lia.
Qed.

Lemma nth_skipn_shift (A : Type) (i k : nat) (l : list A) (d : A) :
  nth k (skipn i l) d = nth (i + k) l d.
Proof.
  revert l; induction i as [|i IH]; intros l; simpl; [reflexivity|].
  destruct l as [|x l]; [now destruct k|apply IH].
Qed.

(** ** The scans of the locator *)

Lemma scan_until_spec (p : text -> bool) (rest : list text) (i k : nat) :
  scan_until p rest i = Some k ->
  i <= k < i + length rest /\ p (nth (k - i) rest []) = true
  /\ forall n, n < k - i -> p (nth n rest []) = false.
Proof.
  revert i; induction rest as [|line rest IH]; intros i; simpl; [discriminate|].
  destruct (p line) eqn:E.
  - intros H. injection H as <-. rewrite Nat.sub_diag.
    split; [lia|]. split; [assumption|]. intros n Hn. lia.
  - intros H. apply IH in H as (Hb & Hp & Hn).
    replace (k - i) with (S (k - S i)) by lia.
    split; [lia|]. split; [assumption|].
    intros [|n] Hlt; [assumption|]. apply Hn. lia.
Qed.

Lemma scan_until_none (p : text -> bool) (rest : list text) (i : nat) :
  scan_until p rest i = None <-> forall line, In line rest -> p line = false.
Proof.
  revert i; induction rest as [|line rest IH]; intros i; simpl.
  - split; [intros _ ? []|reflexivity].
  - destruct (p line) eqn:E.
    + split; [discriminate|]. intros H. rewrite H in E; [discriminate|now left].
    + rewrite IH. split.
      * intros H l [<-|Hl]; auto.
      * intros H l Hl. apply H. now right.
Qed.

Lemma find_group_header_bounds (g : text) (rest : list text) (i : nat) (d : Z) (k : nat) :
  find_group_header g rest i d = Some k ->
  i <= k < i + length rest /\ startswith (quoted g) (strip (nth (k - i) rest [])) = true.
Proof.
  revert i d; induction rest as [|line rest IH]; intros i d;
    cbn [find_group_header length]; [discriminate|].
  destruct (d >? 0)%Z; [|discriminate].
  destruct (startswith (quoted g) (strip line)) eqn:E.
  - intros H. injection H as <-. rewrite Nat.sub_diag. split; [lia|assumption].
  - intros H. apply IH in H as [Hb Hs].
    replace (k - i) with (S (k - S i)) by lia. split; [lia|exact Hs].
Qed.

Lemma find_maps_end_bounds (rest : list text) (m : nat) (d : Z) (e : nat) :
  find_maps_end rest m d = Some e ->
  m <= e < m + length rest /\ (0 < count RBRACE (nth (e - m) rest []))%Z.
Proof.
  revert m d; induction rest as [|line rest IH]; intros m d;
    cbn [find_maps_end length]; [discriminate|].
  destruct (d >? 0)%Z eqn:Ed; [|discriminate]. cbv zeta.
  destruct (d + count LBRACE line - count RBRACE line =? 0)%Z eqn:E0.
  - intros H. injection H as <-. rewrite Nat.sub_diag. split; [lia|].
    cbn [nth]. apply Z.eqb_eq in E0. apply Z.gtb_lt in Ed.
    pose proof (count_nonneg LBRACE line). lia.
  - intros H. apply IH in H as [Hb Hc].
    replace (e - m) with (S (e - S m)) by lia. split; [lia|exact Hc].
Qed.

(** What a successful walk through the group returns. *)
Lemma find_maps_block_bounds (lines : list text) (g : text) (gs0 : nat)
    (rest : list text) (j : nat) (d : Z) (gs s e : nat) (indent : text) :
  rest = skipn j lines -> j <= length lines ->
  find_maps_block lines g gs0 rest j d = Ok (gs, s, e, indent) ->
  gs = gs0 /\ j < s /\ s <= e < length lines
  /\ indent = infer_maps_indent lines s e
  /\ has_lbrace (nth (s - 1) lines []) = true
  /\ (0 < count RBRACE (nth e lines []))%Z.
Proof.
  revert j d; induction rest as [|line rest IH]; intros j d Hrest Hj;
    cbn [find_maps_block]; [discriminate|].
  destruct (d >? 0)%Z; [|discriminate].
  symmetry in Hrest.
  destruct (@skipn_cons_inv text _ _ _ _ [] Hrest) as (Hr' & Hnth & Hlt).
  destruct (startswith (quoted (str "maps")) (strip line)).
  - destruct (scan_until has_lbrace (line :: rest) j) as [k|] eqn:Ek;
      [|discriminate].
    apply scan_until_spec in Ek as (Hkb & Hkp & _).
    rewrite <- Hrest in Hkb, Hkp. rewrite nth_skipn_shift in Hkp.
    rewrite length_skipn in Hkb.
    destruct (find_maps_end (skipn (k + 1) lines) (k + 1) 1) as [m|] eqn:Em;
      [|discriminate].
    apply find_maps_end_bounds in Em as (Hmb & Hmc).
    rewrite nth_skipn_shift in Hmc. rewrite length_skipn in Hmb.
    intros H. injection H as <- <- <- <-.
    replace (k + 1 + (m - (k + 1))) with m in Hmc by lia.
    replace (k + 1 - 1) with (j + (k - j)) by lia.
    repeat split; try lia; assumption.
  - intros H. apply IH in H; [|now symmetry|lia].
    destruct H as (H1 & H2 & H3 & H4 & H5 & H6). repeat split; try lia; assumption.
Qed.

(** The Block Span invariant: [group_header_line < maps_content_start <=
    maps_content_end < len(lines)]; the line before [maps_content_start] holds
    the opening brace and the line at [maps_content_end] a closing brace. *)
Lemma find_group_and_maps_block_bounds (lines : list text) (g : text)
    (gs s e : nat) (indent : text) :
  find_group_and_maps_block lines g = Ok (gs, s, e, indent) ->
  gs < s /\ s <= e < length lines
  /\ indent = infer_maps_indent lines s e
  /\ has_lbrace (nth (s - 1) lines []) = true
  /\ (0 < count RBRACE (nth e lines []))%Z.
Proof.
  unfold find_group_and_maps_block.
  destruct (scan_until is_mapgroups_header lines 0) as [i0|] eqn:E0; [|discriminate].
  destruct (scan_until has_lbrace (skipn (i0 + 1) lines) (i0 + 1)) as [i1|] eqn:E1;
    [|discriminate].
  destruct (find_group_header g (skipn (i1 + 1) lines) (i1 + 1) 1) as [gs0|] eqn:E2;
    [|discriminate].
  destruct (scan_until has_lbrace (skipn gs0 lines) gs0) as [j|] eqn:E3;
    [|discriminate].
  apply scan_until_spec in E3 as (Hj & _). rewrite length_skipn in Hj.
  intros H. apply find_maps_block_bounds in H; [|reflexivity|lia].
  destruct H as (-> & H2 & H3 & H4 & H5 & H6). repeat split; try lia; assumption.
Qed.

(** ** [list.insert] *)

Section ListInsert.
Variable A : Type.
Variables (x d : A) (l : list A) (idx : nat).
Hypothesis idx_in_range : idx <= length l.

Lemma length_list_insert : length (list_insert idx x l) = S (length l).
Proof.
  unfold list_insert. rewrite length_app. cbn [length].
  rewrite length_firstn, length_skipn. lia.
Qed.

Lemma nth_list_insert_before (i : nat) :
  i < idx -> nth i (list_insert idx x l) d = nth i l d.
Proof.
  intros Hi. unfold list_insert. rewrite app_nth1.
  - rewrite <- (firstn_skipn idx l) at 2. rewrite app_nth1; [reflexivity|].
    rewrite length_firstn. lia.
  - rewrite length_firstn. lia.
Qed.

Lemma nth_list_insert_at : nth idx (list_insert idx x l) d = x.
Proof.
  unfold list_insert. rewrite app_nth2; rewrite length_firstn.
  - replace (idx - Nat.min idx (length l)) with 0 by lia. reflexivity.
  - lia.
Qed.

Lemma nth_list_insert_after (i : nat) :
  idx <= i -> nth (S i) (list_insert idx x l) d = nth i l d.
Proof.
  intros Hi. unfold list_insert. rewrite app_nth2; rewrite length_firstn; [|lia].
  replace (S i - Nat.min idx (length l)) with (S (i - idx)) by lia. cbn [nth].
  rewrite nth_skipn_shift. f_equal. lia.
Qed.

End ListInsert.

Lemma insert_map_start (lines : list text) (s e : nat) (indent key : text) :
  insert_map lines s e indent key (str "start")
  = list_insert s (new_entry_line indent key) lines.
Proof. reflexivity. Qed.

Lemma insert_map_other (lines : list text) (s e : nat) (indent key position : text) :
  position <> str "start" ->
  insert_map lines s e indent key position
  = list_insert e (new_entry_line indent key) lines.
Proof.
  intros H. unfold insert_map. apply text_eqb_neq in H. now rewrite H.
Qed.

Lemma insert_map_cases (lines : list text) (s e : nat) (indent key position : text) :
  insert_map lines s e indent key position
  = list_insert (if text_eqb position (str "start") then s else e)
      (new_entry_line indent key) lines.
Proof. unfold insert_map. now destruct (text_eqb position (str "start")). Qed.

(** ** Inserting into a located block *)

(** C3.  Round-trip integrity: after locating a block and inserting a new
    entry, the document is one line longer, every line before
    [maps_content_start] is where it was, every line after [maps_content_end]
    is the same line one index further, and the closing-brace line itself is
    found unchanged at [maps_content_end + 1]. *)
Theorem insert_map_frame (lines : list text) (g : text) (gs s e : nat)
    (indent key position : text) :
  find_group_and_maps_block lines g = Ok (gs, s, e, indent) ->
  let lines' := insert_map lines s e indent key position in
  length lines' = S (length lines)
  /\ (forall i, i < s -> nth i lines' [] = nth i lines [])
  /\ (forall i, e < i -> nth (S i) lines' [] = nth i lines [])
  /\ nth (S e) lines' [] = nth e lines [].
Proof.
  intros H lines'. apply find_group_and_maps_block_bounds in H.
  destruct H as (_ & Hse & _). subst lines'. rewrite insert_map_cases.
  set (idx := if text_eqb position (str "start") then s else e).
  assert (Hidx : s <= idx <= e) by (subst idx; destruct (text_eqb _ _); lia).
  split; [apply length_list_insert; lia|].
  split; [intros i Hi; apply nth_list_insert_before; lia|].
  split; [intros i Hi|]; apply nth_list_insert_after; lia.
Qed.

Lemma insert_map_frame_witness :
  find_group_and_maps_block doc_dust2 (str "mg_active")
    = Ok (2, 6, 7, repeat TAB 3)
  /\ let lines' := insert_map doc_dust2 6 7 (repeat TAB 3) (str "de_train") (str "end") in
     length lines' = S (length doc_dust2)
     /\ (forall i, i < 6 -> nth i lines' [] = nth i doc_dust2 [])
     /\ (forall i, 7 < i -> nth (S i) lines' [] = nth i doc_dust2 [])
     /\ nth 8 lines' [] = nth 7 doc_dust2 [].
Proof.
  split; [reflexivity|].
  apply (@insert_map_frame doc_dust2 (str "mg_active") 2 6 7 (repeat TAB 3)
           (str "de_train") (str "end")).
  reflexivity.
Defined.



(** ** Indentation *)

Lemma dropwhile_length (p : char -> bool) (s : text) :
  length (dropwhile p s) <= length s.
Proof.
  induction s as [|c s IH]; cbn [dropwhile length]; [lia|].
  destruct (p c); cbn [length]; lia.
Qed.

(** [leading_ws] cuts the line where [lstrip] starts, and what it cuts off is
    whitespace. *)
Lemma leading_ws_spec (line : text) :
  line = leading_ws line ++ lstrip line
  /\ forallb is_space (leading_ws line) = true.
Proof.
  unfold leading_ws, lstrip. induction line as [|c line [IH1 IH2]].
  - split; reflexivity.
  - cbn [dropwhile]. destruct (is_space c) eqn:E.
    + pose proof (dropwhile_length is_space line) as Hl.
      replace (length (c :: line) - length (dropwhile is_space line))
        with (S (length line - length (dropwhile is_space line)))
        by (cbn [length]; lia).
      cbn [firstn forallb app]. rewrite E, IH2. split; [|reflexivity].
      f_equal. exact IH1.
    + rewrite Nat.sub_diag. split; reflexivity.
Qed.

(** What the loop of [infer_maps_indent] computes: the first line that holds
    a tab or starts with a quote decides. *)
Lemma infer_maps_indent_loop_exact (lines : list text) (idxs : list nat) :
  infer_maps_indent_loop lines idxs
  = match find (fun i => contains TAB (nth i lines []) || starts_quoted (nth i lines []))
            idxs with
    | Some i => leading_ws (nth i lines [])
    | None => repeat TAB 4
    end.
Proof.
  induction idxs as [|i idxs IH]; [reflexivity|].
  cbn [infer_maps_indent_loop find]. unfold starts_quoted.
  destruct (contains TAB (nth i lines [])), (startswith [DQUOTE] (strip (nth i lines [])));
    cbn [andb orb negb]; rewrite ?andb_false_r, ?orb_true_r; cbn [andb orb negb];
    try reflexivity; exact IH.
Qed.

Lemma infer_maps_indent_loop_quoted (lines : list text) (n s : nat) :
  (forall i, s <= i < s + n ->
     contains TAB (nth i lines []) = true -> starts_quoted (nth i lines []) = false ->
     exists j, s <= j < i /\ starts_quoted (nth j lines []) = true) ->
  infer_maps_indent_loop lines (seq s n) = first_quoted_indent lines (seq s n).
Proof.
  revert s; induction n as [|n IH]; intros s H; [reflexivity|].
  cbn [seq infer_maps_indent_loop first_quoted_indent].
  fold (starts_quoted (nth s lines [])).
  destruct (starts_quoted (nth s lines [])) eqn:Eq.
  - destruct (contains TAB (nth s lines [])); cbn [andb orb negb];
      rewrite ?andb_false_r, ?orb_true_r; reflexivity.
  - destruct (contains TAB (nth s lines [])) eqn:Et.
    + destruct (H s) as (j & Hj & _); [lia|assumption|assumption|lia].
    + cbn [andb orb negb]. apply IH. intros i Hi Ht Hq.
      destruct (H i) as (j & Hj & Hjq); [lia|assumption|assumption|].
      exists j. split; [|assumption].
      assert (j <> s) by (intros ->; congruence). lia.
Qed.

(** C1, as the code has it.  The loop scans the lines from
    [maps_content_start] on, up to but not including [maps_content_end].
    When every line of that range that holds a tab without starting with a
    quote comes after a line that starts with a quote, the indentation token
    is the leading whitespace of the first line of the range whose trimmed
    content starts with a double quote, and four tabs when no line of the
    range starts with one. *)
Theorem infer_maps_indent_first_quoted (lines : list text) (s e : nat) :
  (forall i, s <= i < e ->
     contains TAB (nth i lines []) = true -> starts_quoted (nth i lines []) = false ->
     exists j, s <= j < i /\ starts_quoted (nth j lines []) = true) ->
  infer_maps_indent lines s e = first_quoted_indent lines (seq s (e - s)).
Proof.
  intros H. unfold infer_maps_indent. apply infer_maps_indent_loop_quoted.
  intros i Hi. apply H. lia.
Qed.

Lemma infer_maps_indent_first_quoted_witness :
  (forall i, 6 <= i < 7 ->
     contains TAB (nth i doc_dust2 []) = true ->
     starts_quoted (nth i doc_dust2 []) = false ->
     exists j, 6 <= j < i /\ starts_quoted (nth j doc_dust2 []) = true)
  /\ infer_maps_indent doc_dust2 6 7 = first_quoted_indent doc_dust2 (seq 6 (7 - 6)).
Proof.
  assert (H : forall i, 6 <= i < 7 ->
     contains TAB (nth i doc_dust2 []) = true ->
     starts_quoted (nth i doc_dust2 []) = false ->
     exists j, 6 <= j < i /\ starts_quoted (nth j doc_dust2 []) = true).
  { intros i Hi Ht Hq. assert (i = 6) as -> by lia. vm_compute in Hq. discriminate Hq. }
  split; [exact H|].
  exact (@infer_maps_indent_first_quoted doc_dust2 6 7 H).
Defined.

(** C1 as stated fails twice.  In [doc_spaces] the only entry is the line at
    [maps_content_start]: no line lies strictly between the two indices, yet
    the token is the six spaces of that entry, not four tabs.  In
    [doc_comment] a comment line holding a tab comes before the first entry:
    the token is the comment's single tab, not the entry's four spaces. *)
Lemma infer_maps_indent_not_as_stated :
  (find_group_and_maps_block doc_spaces (str "mg_active") = Ok (2, 6, 7, repeat 32%N 6)
   /\ first_quoted_indent doc_spaces (strictly_between 6 7) = repeat TAB 4
   /\ infer_maps_indent doc_spaces 6 7
      <> first_quoted_indent doc_spaces (strictly_between 6 7))
  /\ (find_group_and_maps_block doc_comment (str "mg_active") = Ok (2, 6, 9, [TAB])
      /\ first_quoted_indent doc_comment (strictly_between 6 9) = repeat 32%N 4
      /\ first_quoted_indent doc_comment (seq 6 (9 - 6)) = repeat 32%N 4
      /\ infer_maps_indent doc_comment 6 9
         <> first_quoted_indent doc_comment (strictly_between 6 9)).
Proof.
  repeat split; try reflexivity; vm_compute; discriminate.
Qed.

(** ** Failures of the locator *)

Lemma find_maps_block_error (lines : list text) (g : text) (gs : nat)
    (rest : list text) (j : nat) (d : Z) (err : AddMapError) :
  find_maps_block lines g gs rest j d = Error err ->
  err = NoMapsBlock g \/ err = MalformedMaps g.
Proof.
  revert j d; induction rest as [|line rest IH]; intros j d; cbn [find_maps_block].
  - intros H. injection H as <-. now left.
  - destruct (d >? 0)%Z; [|intros H; injection H as <-; now left].
    destruct (startswith (quoted (str "maps")) (strip line)); [|apply IH].
    destruct (scan_until has_lbrace (line :: rest) j);
      [|intros H; injection H as <-; now right].
    destruct (find_maps_end _ _ _); [discriminate|].
    intros H; injection H as <-; now right.
Qed.

(** The script raises the malformed-mapgroups error in one situation only:
    no line after the header holds an opening brace. *)
Lemma malformed_mapgroups_iff (lines : list text) (g : text) :
  find_group_and_maps_block lines g = Error MalformedMapgroups
  <-> exists i, scan_until is_mapgroups_header lines 0 = Some i
                /\ forall line, In line (skipn (i + 1) lines) -> has_lbrace line = false.
Proof.
  unfold find_group_and_maps_block.
  destruct (scan_until is_mapgroups_header lines 0) as [i0|] eqn:E0.
  - destruct (scan_until has_lbrace (skipn (i0 + 1) lines) (i0 + 1)) as [i1|] eqn:E1.
    + split.
      * intros H.
        destruct (find_group_header g _ _ _); [|discriminate].
        destruct (scan_until has_lbrace (skipn n lines) n); [|discriminate].
        apply find_maps_block_error in H as [H|H]; discriminate.
      * intros (i & Hi & Hno). injection Hi as <-.
        apply (proj2 (scan_until_none has_lbrace _ (i0 + 1))) in Hno.
        rewrite E1 in Hno. discriminate.
    + split; [|reflexivity]. intros _. exists i0. split; [reflexivity|].
      exact (proj1 (scan_until_none has_lbrace _ _) E1).
  - split; [discriminate|]. intros (i & Hi & _). discriminate.
Qed.

Lemma find_group_header_absent (g : text) (rest : list text) (i : nat) (d : Z) :
  (forall line, In line rest -> startswith (quoted g) (strip line) = false) ->
  find_group_header g rest i d = None.
Proof.
  revert i d; induction rest as [|line rest IH]; intros i d H;
    cbn [find_group_header]; [reflexivity|].
  destruct (d >? 0)%Z; [|reflexivity].
  rewrite (H line) by now left. apply IH. intros l Hl. apply H. now right.
Qed.

Lemma In_skipn (A : Type) (n : nat) (l : list A) (x : A) :
  In x (skipn n l) -> In x l.
Proof.
  intros H. rewrite <- (firstn_skipn n l). apply in_or_app. now right.
Qed.

Lemma find_group_header_unterminated (g : text) (rest : list text) (i : nat) (d : Z) :
  depth_stays_positive rest d = true -> (d >? 0)%Z = true ->
  find_group_header g rest i d = scan_until (starts_with_group g) rest i.
Proof.
  revert i d; induction rest as [|line rest IH]; intros i d Hpos Hd; [reflexivity|].
  cbn [find_group_header scan_until depth_stays_positive] in *. rewrite Hd.
  unfold starts_with_group at 1.
  destruct (startswith (quoted g) (strip line)); [reflexivity|].
  apply andb_true_iff in Hpos as [Hd' Hrest].
  rewrite walk_braces_eq. now apply IH.
Qed.

Lemma locate_from_group_not_group_error (lines : list text) (g : text) (gs : nat) :
  locate_from_group lines g gs <> Error (GroupNotFound g)
  /\ locate_from_group lines g gs <> Error MalformedMapgroups.
Proof.
  unfold locate_from_group.
  destruct (scan_until has_lbrace (skipn gs lines) gs) as [j|];
    [|split; discriminate].
  destruct (find_maps_block lines g gs (skipn (j + 1) lines) (j + 1) 1)
    as [r|err] eqn:E; [split; discriminate|].
  apply find_maps_block_error in E as [->| ->]; split; discriminate.
Qed.

(** C7, as the code has it.  An unterminated mapgroups section is not an
    error of its own.  When the section has its opening brace, at line [k],
    and the depth opened there never returns to zero, the locator does not
    fail with the malformed-mapgroups error.  It fails with the
    group-not-found error exactly when no line behind line [k] starts, once
    trimmed, with the quoted group name; a line with that name at or before
    line [k] does not count.  Otherwise the first such line behind line [k]
    is the group header, and the result is the result of steps 4 and 5 from
    that line ([locate_from_group]). *)
Theorem unterminated_mapgroups_undetected (lines : list text) (g : text) :
  mapgroups_unterminated lines = true ->
  exists k,
    mapgroups_open lines = Some k
    /\ find_group_and_maps_block lines g <> Error MalformedMapgroups
    /\ (find_group_and_maps_block lines g = Error (GroupNotFound g)
        <-> existsb (starts_with_group g) (skipn (k + 1) lines) = false)
    /\ find_group_and_maps_block lines g
       = match scan_until (starts_with_group g) (skipn (k + 1) lines) (k + 1) with
         | None => Error (GroupNotFound g)
         | Some gs => locate_from_group lines g gs
         end.
Proof.
  unfold mapgroups_unterminated, mapgroups_open. intros H.
  destruct (scan_until is_mapgroups_header lines 0) as [i0|] eqn:E0; [|discriminate].
  destruct (scan_until has_lbrace (skipn (i0 + 1) lines) (i0 + 1)) as [k|] eqn:E1;
    [|discriminate].
  exists k. split; [reflexivity|].
  assert (Heq : find_group_and_maps_block lines g
                = match scan_until (starts_with_group g) (skipn (k + 1) lines) (k + 1) with
                  | None => Error (GroupNotFound g)
                  | Some gs => locate_from_group lines g gs
                  end).
  { unfold find_group_and_maps_block. rewrite E0, E1.
    rewrite (@find_group_header_unterminated g _ (k + 1) 1%Z H eq_refl).
    destruct (scan_until (starts_with_group g) (skipn (k + 1) lines) (k + 1));
      reflexivity. }
  split; [|split; [|exact Heq]].
  - rewrite Heq.
    destruct (scan_until (starts_with_group g) (skipn (k + 1) lines) (k + 1));
      [apply locate_from_group_not_group_error|discriminate].
  - rewrite Heq.
    destruct (scan_until (starts_with_group g) (skipn (k + 1) lines) (k + 1))
      as [gs|] eqn:Es.
    + split.
      * intros Hc. now apply locate_from_group_not_group_error in Hc.
      * intros Hex. exfalso. apply scan_until_spec in Es as (Hb & Hp & _).
        assert (Hin : existsb (starts_with_group g) (skipn (k + 1) lines) = true).
        { apply existsb_exists. exists (nth (gs - (k + 1)) (skipn (k + 1) lines) []).
          split; [apply nth_In; lia|exact Hp]. }
        congruence.
    + split; [|reflexivity]. intros _.
      destruct (existsb (starts_with_group g) (skipn (k + 1) lines)) eqn:Hex;
        [|reflexivity].
      apply existsb_exists in Hex as (l & Hl & Hp).
      rewrite (proj1 (scan_until_none (starts_with_group g) _ (k + 1)) Es l Hl) in Hp.
      discriminate.
Qed.

Lemma unterminated_mapgroups_undetected_witness :
  mapgroups_unterminated doc_early_name = true
  /\ starts_with_group (str "mg_active") (nth 1 doc_early_name []) = true
  /\ find_group_and_maps_block doc_early_name (str "mg_active")
     = Error (GroupNotFound (str "mg_active"))
  /\ exists k,
       mapgroups_open doc_early_name = Some k
       /\ find_group_and_maps_block doc_early_name (str "mg_active")
          <> Error MalformedMapgroups
       /\ (find_group_and_maps_block doc_early_name (str "mg_active")
           = Error (GroupNotFound (str "mg_active"))
           <-> existsb (starts_with_group (str "mg_active"))
                 (skipn (k + 1) doc_early_name) = false)
       /\ find_group_and_maps_block doc_early_name (str "mg_active")
          = match scan_until (starts_with_group (str "mg_active"))
                    (skipn (k + 1) doc_early_name) (k + 1) with
            | None => Error (GroupNotFound (str "mg_active"))
            | Some gs => locate_from_group doc_early_name (str "mg_active") gs
            end.
Proof.
  split; [reflexivity|]. split; [reflexivity|]. split; [reflexivity|].
  apply (@unterminated_mapgroups_undetected doc_early_name (str "mg_active")).
  reflexivity.
Defined.

(** C7 as stated fails: [doc_unterminated] stops inside the mapgroups
    section, whose depth never returns to zero, and the locator still
    returns the span of the maps block of [mg_active]; asked for a group
    that is not there, it fails with the group-not-found error. *)
Lemma unterminated_mapgroups_not_malformed :
  mapgroups_unterminated doc_unterminated = true
  /\ find_group_and_maps_block doc_unterminated (str "mg_active")
     = Ok (2, 6, 7, repeat TAB 3)
  /\ find_group_and_maps_block doc_unterminated (str "mg_missing")
     = Error (GroupNotFound (str "mg_missing"))
  /\ find_group_and_maps_block doc_unterminated (str "mg_active")
     <> Error MalformedMapgroups
  /\ find_group_and_maps_block doc_unterminated (str "mg_missing")
     <> Error MalformedMapgroups.
Proof.
  repeat split; try reflexivity; vm_compute; discriminate.
Qed.

(** ** The command *)

Lemma read_lines_missing (fs : FS) (path : string) :
  fs path = None -> read_lines fs path = Error (MissingFile path).
Proof. intros H. unfold read_lines, read_text. now rewrite H. Qed.

Lemma read_lines_present (fs : FS) (path : string) (t : text) :
  fs path = Some t -> read_lines fs path = Ok (splitlines true (universal_newlines t)).
Proof. intros H. unfold read_lines, read_text. now rewrite H. Qed.

(** C6, as the code has it.  When the primary file is missing, reading it
    fails with the missing-file error and the operation fails with that
    error whatever the other arguments are: the locator is never reached.
    When the file is there and empty, the document has no line and the
    operation fails in the locator, with the error for a missing mapgroups
    section. *)
Theorem missing_or_empty_primary_file (fs : FS) (gm sub : string) (g m : text)
    (w : option text) (dry : bool) (pos : text) :
  opt_text (fs gm) = [] ->
  add_map_to_group fs gm sub g m w dry pos
  = match fs gm with
    | None => Error (MissingFile gm)
    | Some _ => Error NoMapgroups
    end
  /\ (fs gm = None -> read_lines fs gm = Error (MissingFile gm)).
Proof.
  intros H. split; [|apply read_lines_missing].
  unfold add_map_to_group.
  destruct (fs gm) as [t|] eqn:E.
  - cbn [opt_text] in H. subst t. rewrite (read_lines_present _ _ E). reflexivity.
  - now rewrite (read_lines_missing _ _ E).
Qed.

Lemma missing_or_empty_primary_file_witness :
  opt_text (fs_of None None gm_path) = []
  /\ add_map_to_group (fs_of None None) gm_path sub_path (str "mg_active")
       (str "de_train") None false (str "end")
     = Error (MissingFile gm_path)
  /\ read_lines (fs_of None None) gm_path = Error (MissingFile gm_path).
Proof.
  split; [reflexivity|].
  destruct (@missing_or_empty_primary_file (fs_of None None) gm_path sub_path
              (str "mg_active") (str "de_train") None false (str "end") eq_refl)
    as [H1 H2].
  split; [exact H1|]. apply H2. reflexivity.
Defined.

(** C6 as stated fails for an empty primary file: the file is read and
    split into no line, and the error is the locator's, not the missing-file
    error. *)
Lemma empty_primary_file_not_missing :
  fs_of (Some []) None gm_path = Some []
  /\ add_map_to_group (fs_of (Some []) None) gm_path sub_path (str "mg_active")
       (str "de_train") None false (str "end")
     = Error NoMapgroups
  /\ add_map_to_group (fs_of (Some []) None) gm_path sub_path (str "mg_active")
       (str "de_train") None false (str "end")
     <> Error (MissingFile gm_path).
Proof.
  repeat split; try reflexivity. vm_compute. discriminate.
Qed.

(** From the command line, a missing primary file stops [main] at its
    existence check, with exit code 1, before [add_map_to_group] is called. *)
Lemma main_missing_primary_file (args : Args) (fs : FS) :
  fs (fst (resolve_paths (custom args))) = None ->
  exists msg, main args fs = (fs, [msg], 1%Z) /\ outcomes [msg] = [Precondition].
Proof.
  intros H. unfold main, exists_file.
  destruct (custom args); cbn [resolve_paths fst] in *; rewrite H; cbn [negb andb orb].
  - now exists CustomMissing.
  - now eexists (GamemodesMissing _).
Qed.

Lemma format_map_key_workshop (m id : text) :
  id <> [] -> format_map_key m (Some id) = str "workshop/" ++ id ++ str "/" ++ m.
Proof. intros H. destruct id; [congruence|reflexivity]. Qed.

Lemma format_map_key_distinct (m id : text) :
  id <> [] -> format_map_key m (Some id) <> format_map_key m None.
Proof.
  intros H E. rewrite format_map_key_workshop in E by assumption.
  cbn [format_map_key] in E. apply (f_equal (@length char)) in E.
  rewrite !length_app in E. cbn [str list_ascii_of_string map length] in E. lia.
Qed.

(** The first half of [add_map_to_group], when the key is not in the block. *)
Lemma add_map_to_group_inserts (fs : FS) (gm sub : string) (g m : text)
    (w : option text) (dry : bool) (pos : text) (lines : list text)
    (gs s e : nat) (indent : text) :
  read_lines fs gm = Ok lines ->
  find_group_and_maps_block lines g = Ok (gs, s, e, indent) ->
  existsb (text_eqb (format_map_key m w)) (current_maps_in_block lines s e) = false ->
  truthy w = false ->
  add_map_to_group fs gm sub g m w dry pos
  = Ok (if dry then fs
        else write_lines (fst (backup_file fs gm)) gm
               (insert_map lines s e indent (format_map_key m w) pos),
        (if dry then [] else [Backup (backup_path gm)])
        ++ [AddedMap g (format_map_key m w) dry]).
Proof.
  intros Hr Hl Hk Hw. unfold add_map_to_group. rewrite Hr, Hl, Hk, Hw.
  destruct dry; reflexivity.
Qed.

(** [add_map_to_group] with its two halves set apart. *)
Lemma add_map_to_group_eq (fs : FS) (gm sub : string) (g m : text)
    (w : option text) (dry : bool) (pos : text) :
  add_map_to_group fs gm sub g m w dry pos
  = match read_lines fs gm with
    | Error err => Error err
    | Ok lines =>
        match find_group_and_maps_block lines g with
        | Error err => Error err
        | Ok (gs, s, e, indent) =>
            let key := format_map_key m w in
            let dup := existsb (text_eqb key) (current_maps_in_block lines s e) in
            let fs1 := if dup || dry then fs
                       else write_lines (fst (backup_file fs gm)) gm
                              (insert_map lines s e indent key pos) in
            let out1 := if dup then [SkipMap g key]
                        else (if dry then [] else [Backup (backup_path gm)])
                             ++ [AddedMap g key dry] in
            if truthy w then
              let r := add_workshop_id fs1 sub (opt_text w) dry in
              Ok (fst r, out1 ++ [if snd r then Subscribed (opt_text w) dry
                                   else SkipWorkshop (opt_text w)])
            else Ok (fs1, out1)
        end
    end.
Proof.
  unfold add_map_to_group.
  destruct (read_lines fs gm) as [lines|err]; [|reflexivity].
  destruct (find_group_and_maps_block lines g) as [[[[gs s] e] indent]|err];
    [|reflexivity].
  cbv zeta.
  destruct (existsb _ (current_maps_in_block lines s e)), dry, (truthy w);
    cbn [orb negb backup_file fst app];
    try reflexivity;
    match goal with
    | |- context [add_workshop_id ?f ?p ?t ?d] =>
        destruct (add_workshop_id f p t d) as [fs2 [|]]; reflexivity
    end.
Qed.

Lemma add_workshop_id_eq (fs : FS) (p : string) (tok : text) (dry : bool) :
  add_workshop_id fs p tok dry
  = if is_subscribed fs p tok then (fs, false)
    else (if dry then fs else fs_write fs p (opt_text (fs p) ++ tok ++ [LF]), true).
Proof.
  unfold add_workshop_id, is_subscribed, read_text.
  destruct (fs p) as [t|]; cbn [option_map opt_text];
    destruct (existsb _ _), dry; reflexivity.
Qed.

Lemma resolve_paths_distinct (use_custom : bool) :
  let '(gm, sub) := resolve_paths use_custom in
  String.eqb sub gm = false /\ String.eqb sub (backup_path gm) = false.
Proof. destruct use_custom; split; reflexivity. Qed.

(** The first half of [add_map_to_group] leaves every file but the primary
    file and its backup as it was. *)
Lemma first_half_footprint (fs : FS) (gm : string) (lines : list text) (b : bool)
    (p : string) :
  String.eqb p gm = false -> String.eqb p (backup_path gm) = false ->
  (if b then fs else write_lines (fst (backup_file fs gm)) gm lines) p = fs p.
Proof.
  intros H1 H2. destruct b; [reflexivity|].
  unfold write_lines, write_text, fs_write, backup_file. cbn [fst].
  now rewrite H1, H2.
Qed.




Lemma read_lines_ext (fs1 fs2 : FS) (p : string) :
  fs1 p = fs2 p -> read_lines fs1 p = read_lines fs2 p.
Proof. intros H. unfold read_lines, read_text. now rewrite H. Qed.

(** Without a workshop id, what [add_map_to_group] prints, and what it
    leaves in the primary file, depend on the primary file alone. *)
Lemma add_map_to_group_falsy_ext (fs1 fs2 : FS) (gm sub : string) (g m : text)
    (w : option text) (dry : bool) (pos : text) :
  truthy w = false -> fs1 gm = fs2 gm ->
  match add_map_to_group fs1 gm sub g m w dry pos,
        add_map_to_group fs2 gm sub g m w dry pos with
  | Ok (fs1', out1), Ok (fs2', out2) => out1 = out2 /\ fs1' gm = fs2' gm
  | Error e1, Error e2 => e1 = e2
  | _, _ => False
  end.
Proof.
  intros Hw Hgm. rewrite !add_map_to_group_eq, (read_lines_ext fs1 fs2 gm Hgm).
  destruct (read_lines fs2 gm) as [lines|err]; [|reflexivity].
  destruct (find_group_and_maps_block lines g) as [[[[gs s] e] indent]|err];
    [|reflexivity].
  cbv zeta. rewrite Hw. split; [reflexivity|].
  destruct (_ || dry); [exact Hgm|].
  unfold write_lines, write_text, fs_write. now rewrite String.eqb_refl.
Qed.

(** C10.  An empty workshop id is no workshop id: the key is the bare map
    name; [add_map_to_group] returns what it returns without a workshop id,
    whatever path is given for the subscription list; so does [main], which
    leaves the subscription list as it found it, and whose messages, exit
    code and primary file do not depend on what the subscription list
    holds. *)
Theorem empty_workshop_id_is_none (args : Args) (fs : FS) :
  let run := main (set_workshop_id args (Some [])) in
  let gm := fst (resolve_paths (custom args)) in
  let sub := snd (resolve_paths (custom args)) in
  format_map_key (map_name args) (Some []) = map_name args
  /\ (forall gm sub sub',
        add_map_to_group fs gm sub (group_name args) (map_name args) (Some [])
          (dry_run args) (position args)
        = add_map_to_group fs gm sub' (group_name args) (map_name args) None
            (dry_run args) (position args))
  /\ run fs = main (set_workshop_id args None) fs
  /\ fst (fst (run fs)) sub = fs sub
  /\ (forall fs2,
        (forall p, String.eqb p sub = false -> fs2 p = fs p) ->
        exists_file fs2 sub = exists_file fs sub ->
        snd (fst (run fs2)) = snd (fst (run fs))
        /\ snd (run fs2) = snd (run fs)
        /\ fst (fst (run fs2)) gm = fst (fst (run fs)) gm).
Proof.
  intros run gm sub. subst run gm sub.
  split; [reflexivity|]. split; [reflexivity|]. split; [reflexivity|].
  unfold main. cbn [set_workshop_id custom group_name map_name workshop_id dry_run position].
  pose proof (resolve_paths_distinct (custom args)) as Hd.
  destruct (resolve_paths (custom args)) as [gm sub]. destruct Hd as [H1 H2].
  cbn [fst snd]. split.
  - destruct (custom args && _); [reflexivity|].
    destruct (negb (custom args) && _); [reflexivity|].
    rewrite add_map_to_group_eq.
    destruct (read_lines fs gm) as [lines|err]; [|reflexivity].
    destruct (find_group_and_maps_block lines (group_name args))
      as [[[[gs s] e] indent]|err]; [|reflexivity].
    cbn [truthy fst snd]. apply first_half_footprint; assumption.
  - intros fs2 Hext Hex.
    assert (Hgm : fs2 gm = fs gm).
    { apply Hext. rewrite String.eqb_sym. exact H1. }
    unfold exists_file in *. rewrite Hgm.
    set (c1 := custom args && _). set (c2 := custom args && _).
    assert (c1 = c2) as -> by (subst c1 c2; now rewrite Hex).
    destruct c2; [repeat split; exact Hgm|].
    destruct (negb (custom args) && _); [repeat split; exact Hgm|].
    pose proof (@add_map_to_group_falsy_ext fs2 fs gm sub (group_name args)
                  (map_name args) (Some []) (dry_run args) (position args)
                  eq_refl Hgm) as H.
    destruct (add_map_to_group fs2 _ _ _ _ _ _ _) as [[fs2' out2]|e2];
      destruct (add_map_to_group fs _ _ _ _ _ _ _) as [[fs' out]|e1];
      cbn [fst snd]; try contradiction.
    + destruct H as [-> H]. repeat split. exact H.
    + subst e2. repeat split. exact Hgm.
Qed.

Lemma empty_workshop_id_is_none_witness :
  let args := cli "mg_active" "de_train" (Some []) false "end" in
  let fs := fs_of (Some (join doc_dust2)) (Some (str "999")) in
  let fs2 := fs_of (Some (join doc_dust2)) (Some (str "3070284539")) in
  (forall p, String.eqb p sub_path = false -> fs2 p = fs p)
  /\ exists_file fs2 sub_path = exists_file fs sub_path
  /\ main args fs = main (set_workshop_id args None) fs
  /\ fst (fst (main args fs)) sub_path = fs sub_path
  /\ snd (fst (main args fs2)) = snd (fst (main args fs))
  /\ snd (main args fs2) = snd (main args fs)
  /\ fst (fst (main args fs2)) gm_path = fst (fst (main args fs)) gm_path.
Proof.
  intros args fs fs2.
  assert (Hext : forall p, String.eqb p sub_path = false -> fs2 p = fs p).
  { intros p Hp. unfold fs2, fs, fs_of. rewrite Hp. reflexivity. }
  destruct (empty_workshop_id_is_none args fs) as (_ & _ & H3 & H4 & H5).
  split; [exact Hext|]. split; [reflexivity|].
  split; [exact H3|]. split; [exact H4|].
  exact (H5 fs2 Hext eq_refl).
Defined.

(** ** Splitting into lines *)

Lemma splitlines_acc_body (k : bool) (body cur rest : text) :
  no_linebreak body = true ->
  splitlines_acc k cur (body ++ rest) = splitlines_acc k (rev body ++ cur) rest.
Proof.
  revert cur; induction body as [|c body IH]; intros cur H; [reflexivity|].
  cbn [no_linebreak forallb] in H. apply andb_true_iff in H as [Hc Hb].
  apply negb_true_iff in Hc.
  cbn [app splitlines_acc rev]. rewrite Hc, (IH (c :: cur) Hb), <- app_assoc.
  reflexivity.
Qed.

Lemma crlf_split_nil (c : char) : crlf_split c [] = false.
Proof. unfold crlf_split. apply andb_false_r. Qed.

Lemma splitlines_acc_break (k : bool) (c : char) (cur rest : text) :
  is_linebreak c = true -> crlf_split c rest = false ->
  splitlines_acc k cur (c :: rest)
  = rev (if k then c :: cur else cur) :: splitlines_acc k [] rest.
Proof.
  intros Hc Hs. cbn [splitlines_acc]. rewrite Hc.
  destruct rest as [|c2 rest]; [reflexivity|].
  unfold crlf_split in Hs. now rewrite Hs.
Qed.

Lemma splitlines_acc_app_le (n : nat) (k : bool) (a : text) (c : char) (b cur : text) :
  length a <= n -> is_linebreak c = true -> crlf_split c b = false ->
  splitlines_acc k cur (a ++ c :: b)
  = splitlines_acc k cur (a ++ [c]) ++ splitlines_acc k [] b.
Proof.
  revert a cur; induction n as [|n IH]; intros a cur Hlen Hc Hs.
  - destruct a; [|cbn [length] in Hlen; lia]. cbn [app].
    rewrite !splitlines_acc_break by (assumption || apply crlf_split_nil).
    reflexivity.
  - destruct a as [|x a].
    + cbn [app].
      rewrite !splitlines_acc_break by (assumption || apply crlf_split_nil).
      reflexivity.
    + cbn [length] in Hlen. cbn [app splitlines_acc].
      destruct (is_linebreak x).
      * destruct a as [|y a]; cbn [app].
        -- destruct (N.eqb x CR && N.eqb c LF); [reflexivity|].
           cbn [app]. f_equal. apply (IH [] []); [cbn [length]; lia|assumption..].
        -- cbn [length] in Hlen.
           destruct (N.eqb x CR && N.eqb y LF); cbn [app]; f_equal.
           ++ apply IH; [lia|assumption..].
           ++ apply (IH (y :: a)); [cbn [length]; lia|assumption..].
      * apply IH; [lia|assumption..].
Qed.

(** Splitting distributes over a cut right after a line boundary. *)
Lemma splitlines_app (k : bool) (a b : text) :
  terminated a = true ->
  match rev a with c :: _ => crlf_split c b = false | [] => True end ->
  splitlines k (a ++ b) = splitlines k a ++ splitlines k b.
Proof.
  unfold terminated, splitlines. intros Ht Hs.
  destruct (rev a) as [|c r] eqn:E.
  - apply (f_equal (@rev char)) in E. rewrite rev_involutive in E. now subst a.
  - apply (f_equal (@rev char)) in E. rewrite rev_involutive in E. cbn [rev] in E.
    subst a. rewrite <- app_assoc. cbn [app].
    apply (@splitlines_acc_app_le (length (rev r))); [lia|assumption..].
Qed.

Lemma splitlines_one_line (k : bool) (body : text) (c : char) :
  no_linebreak body = true -> is_linebreak c = true ->
  splitlines k (body ++ [c]) = [if k then body ++ [c] else body].
Proof.
  intros Hb Hc. unfold splitlines. rewrite splitlines_acc_body by assumption.
  rewrite splitlines_acc_break by (assumption || apply crlf_split_nil).
  rewrite app_nil_r. destruct k; cbn [rev splitlines_acc]; now rewrite rev_involutive.
Qed.

(** ** Reading in text mode *)

Lemma universal_newlines_app_le (n : nat) (a b : text) :
  length a <= n ->
  match b with c :: _ => N.eqb c LF = false | [] => True end ->
  universal_newlines (a ++ b) = universal_newlines a ++ universal_newlines b.
Proof.
  revert a; induction n as [|n IH]; intros a Hlen Hb.
  - destruct a; [reflexivity|cbn [length] in Hlen; lia].
  - destruct a as [|x a]; [reflexivity|].
    cbn [length] in Hlen. cbn [app universal_newlines].
    destruct (N.eqb x CR).
    + destruct a as [|y a]; cbn [app].
      * destruct b as [|c b]; [reflexivity|]. now rewrite Hb.
      * cbn [length] in Hlen. destruct (N.eqb y LF); cbn [app]; f_equal.
        -- apply IH; [lia|assumption].
        -- apply (IH (y :: a)); [cbn [length]; lia|assumption].
    + cbn [app]. f_equal. apply IH; [lia|assumption].
Qed.

Lemma universal_newlines_no_cr (s : text) :
  no_cr s = true -> universal_newlines s = s.
Proof.
  induction s as [|c s IH]; [reflexivity|]. cbn [no_cr forallb].
  intros H. apply andb_true_iff in H as [Hc Hs]. apply negb_true_iff in Hc.
  cbn [universal_newlines]. rewrite Hc. f_equal. now apply IH.
Qed.

Lemma universal_newlines_is_no_cr_le (n : nat) (s : text) :
  length s <= n -> no_cr (universal_newlines s) = true.
Proof.
  revert s; induction n as [|n IH]; intros s Hlen.
  - destruct s; [reflexivity|cbn [length] in Hlen; lia].
  - destruct s as [|x s]; [reflexivity|].
    cbn [length] in Hlen. cbn [universal_newlines].
    destruct (N.eqb x CR) eqn:Ex.
    + destruct s as [|y s]; [reflexivity|]. cbn [length] in Hlen.
      destruct (N.eqb y LF); cbn [no_cr forallb negb andb N.eqb LF CR Pos.eqb];
        apply IH; cbn [length]; lia.
    + cbn [no_cr forallb]. rewrite Ex. cbn [negb andb]. apply IH. lia.
Qed.

Lemma universal_newlines_is_no_cr (s : text) : no_cr (universal_newlines s) = true.
Proof. apply (@universal_newlines_is_no_cr_le (length s)). lia. Qed.

Lemma terminated_snoc (s : text) (c : char) : terminated (s ++ [c]) = is_linebreak c.
Proof. unfold terminated. now rewrite rev_app_distr. Qed.

Lemma universal_newlines_snoc_le (n : nat) (r : text) (c : char) :
  length r <= n -> is_linebreak c = true ->
  exists u c', universal_newlines (r ++ [c]) = u ++ [c'] /\ is_linebreak c' = true.
Proof.
  revert r; induction n as [|n IH]; intros r Hlen Hc.
  - destruct r; [|cbn [length] in Hlen; lia]. cbn [app universal_newlines].
    destruct (N.eqb c CR); [now exists [], LF|now exists [], c].
  - destruct r as [|x r].
    + cbn [app universal_newlines].
      destruct (N.eqb c CR); [now exists [], LF|now exists [], c].
    + cbn [length] in Hlen. cbn [app universal_newlines].
      destruct (N.eqb x CR).
      * destruct r as [|y r]; cbn [app].
        -- destruct (N.eqb c LF); [now exists [], LF|].
           destruct (IH [] ltac:(cbn [length]; lia) Hc) as (u & c' & E & Hc').
           cbn [app] in E. rewrite E. now exists (LF :: u), c'.
        -- cbn [length] in Hlen. destruct (N.eqb y LF).
           ++ destruct (IH r ltac:(lia) Hc) as (u & c' & E & Hc').
              rewrite E. now exists (LF :: u), c'.
           ++ destruct (IH (y :: r) ltac:(cbn [length]; lia) Hc) as (u & c' & E & Hc').
              cbn [app] in E. rewrite E. now exists (LF :: u), c'.
      * destruct (IH r ltac:(lia) Hc) as (u & c' & E & Hc').
        rewrite E. now exists (x :: u), c'.
Qed.

Lemma universal_newlines_terminated (s : text) :
  terminated s = true -> terminated (universal_newlines s) = true.
Proof.
  intros H. unfold terminated in H. destruct (rev s) as [|c r] eqn:E.
  - apply (f_equal (@rev char)) in E. rewrite rev_involutive in E. now subst s.
  - apply (f_equal (@rev char)) in E. rewrite rev_involutive in E. cbn [rev] in E.
    subst s.
    destruct (@universal_newlines_snoc_le (length (rev r)) (rev r) c ltac:(lia) H)
      as (u & c' & Eu & Hc').
    rewrite Eu, terminated_snoc. exact Hc'.
Qed.

Lemma no_linebreak_no_cr (s : text) : no_linebreak s = true -> no_cr s = true.
Proof.
  unfold no_linebreak, no_cr. rewrite !forallb_forall. intros H c Hc.
  specialize (H c Hc). apply negb_true_iff in H. apply negb_true_iff.
  destruct (N.eqb c CR) eqn:E; [|reflexivity]. apply N.eqb_eq in E. now subst c.
Qed.

Lemma no_cr_app (a b : text) : no_cr (a ++ b) = no_cr a && no_cr b.
Proof. apply forallb_app. Qed.

Lemma no_linebreak_app (a b : text) :
  no_linebreak (a ++ b) = no_linebreak a && no_linebreak b.
Proof. apply forallb_app. Qed.

(** The first character of a text without line boundary splits no [\r\n]. *)
Lemma no_linebreak_head (s rest : text) :
  no_linebreak s = true -> s <> [] ->
  match s ++ rest with c :: _ => N.eqb c LF = false | [] => True end.
Proof.
  destruct s as [|c s]; [congruence|]. intros H _. cbn [app].
  cbn [no_linebreak forallb] in H. apply andb_true_iff in H as [Hc _].
  apply negb_true_iff in Hc.
  destruct (N.eqb c LF) eqn:E; [|reflexivity]. apply N.eqb_eq in E. now subst c.
Qed.

Lemma crlf_split_head (c : char) (s : text) :
  match s with c2 :: _ => N.eqb c2 LF = false | [] => True end ->
  crlf_split c s = false.
Proof.
  unfold crlf_split. destruct s as [|c2 s]; [intros _; apply andb_false_r|].
  intros ->. apply andb_false_r.
Qed.

(** ** The list appender *)

Lemma plain_token_inv (tok : text) :
  plain_token tok = true -> tok <> [] /\ strip tok = tok /\ no_linebreak tok = true.
Proof.
  unfold plain_token. intros H.
  apply andb_true_iff in H as [H Hl]. apply andb_true_iff in H as [Hn Hs].
  apply text_eqb_eq in Hs. repeat split; try assumption.
  destruct tok; [discriminate|congruence].
Qed.

Lemma existing_ids_In (t line : text) :
  In line (splitlines false t) -> strip line <> [] -> In (strip line) (existing_ids t).
Proof.
  intros Hin Hne. unfold existing_ids. apply in_map. apply filter_In.
  split; [assumption|]. destruct (strip line); [congruence|reflexivity].
Qed.

(** Once a plain token has been appended to a file that was empty or ended
    with a line boundary, it is one of the lines of the file. *)
Lemma appended_token_is_member (old tok : text) :
  plain_token tok = true -> terminated old = true ->
  In tok (existing_ids (universal_newlines (old ++ tok ++ [LF]))).
Proof.
  intros Htok Hold. apply plain_token_inv in Htok as (Hne & Hstrip & Hlb).
  pose proof (no_linebreak_head [LF] Hlb Hne) as Hhead.
  rewrite (@universal_newlines_app_le (length old)) by (lia || assumption).
  rewrite (universal_newlines_no_cr (tok ++ [LF]))
    by (rewrite no_cr_app, (no_linebreak_no_cr _ Hlb); reflexivity).
  rewrite <- Hstrip at 1. apply existing_ids_In; [|now rewrite Hstrip].
  rewrite splitlines_app.
  - rewrite splitlines_one_line by (assumption || reflexivity).
    apply in_or_app. right. now left.
  - now apply universal_newlines_terminated.
  - destruct (rev (universal_newlines old)); [exact I|].
    now apply crlf_split_head.
Qed.




(** ** Lines written and read again *)

Lemma join_splitlines_acc_le (n : nat) (t cur : text) :
  length t <= n -> join (splitlines_acc true cur t) = rev cur ++ t.
Proof.
  unfold join. revert t cur; induction n as [|n IH]; intros t cur Hlen.
  - destruct t; [|cbn [length] in Hlen; lia]. cbn [splitlines_acc].
    destruct cur; [reflexivity|]. cbn [concat]. now rewrite !app_nil_r.
  - destruct t as [|c t].
    + cbn [splitlines_acc]. destruct cur; [reflexivity|]. cbn [concat].
      now rewrite !app_nil_r.
    + cbn [length] in Hlen. cbn [splitlines_acc]. destruct (is_linebreak c).
      * destruct t as [|c2 t].
        -- cbn [concat rev]. now rewrite app_nil_r.
        -- cbn [length] in Hlen. destruct (N.eqb c CR && N.eqb c2 LF);
             cbn [concat rev]; rewrite IH by (cbn [length]; lia);
             cbn [rev app]; rewrite <- ?app_assoc; reflexivity.
      * rewrite IH by lia. cbn [rev]. now rewrite <- app_assoc.
Qed.

(** [write_lines] after [splitlines] gives the text back. *)
Lemma join_splitlines (t : text) : join (splitlines true t) = t.
Proof. apply (@join_splitlines_acc_le (length t)). lia. Qed.

Lemma complete_line_inv (line : text) :
  complete_line line = true ->
  exists body c, line = body ++ [c] /\ no_linebreak body = true
                 /\ is_linebreak c = true /\ N.eqb c CR = false.
Proof.
  unfold complete_line. destruct (rev line) as [|c r] eqn:E; [discriminate|].
  intros H. apply andb_true_iff in H as [H Hb]. apply andb_true_iff in H as [Hc Hcr].
  apply negb_true_iff in Hcr.
  apply (f_equal (@rev char)) in E. rewrite rev_involutive in E. cbn [rev] in E.
  exists (rev r), c. repeat split; try assumption.
  unfold no_linebreak in *. rewrite forallb_forall in *.
  intros x Hx. apply Hb. now apply in_rev.
Qed.

Lemma complete_line_intro (body : text) (c : char) :
  no_linebreak body = true -> is_linebreak c = true -> N.eqb c CR = false ->
  complete_line (body ++ [c]) = true.
Proof.
  intros Hb Hc Hcr. unfold complete_line. rewrite rev_app_distr. cbn [rev app].
  rewrite Hc, Hcr. cbn [negb andb].
  unfold no_linebreak in *. rewrite forallb_forall in *.
  intros x Hx. apply Hb. now apply in_rev.
Qed.

Lemma splitlines_complete_line (line rest : text) :
  complete_line line = true ->
  splitlines true (line ++ rest) = line :: splitlines true rest.
Proof.
  intros H. apply complete_line_inv in H as (body & c & -> & Hb & Hc & Hcr).
  unfold splitlines. rewrite <- app_assoc. cbn [app].
  rewrite splitlines_acc_body by assumption.
  rewrite splitlines_acc_break;
    [|assumption|unfold crlf_split; now rewrite Hcr].
  rewrite app_nil_r. cbn [rev]. now rewrite rev_involutive.
Qed.

Lemma splitlines_complete_lines (A : list text) (rest : text) :
  forallb complete_line A = true ->
  splitlines true (join A ++ rest) = A ++ splitlines true rest.
Proof.
  induction A as [|l A IH]; [reflexivity|]. cbn [forallb]. intros H.
  apply andb_true_iff in H as [Hl HA]. unfold join in *. cbn [concat].
  rewrite <- app_assoc, splitlines_complete_line by assumption.
  cbn [app]. f_equal. now apply IH.
Qed.

Lemma well_split_cons (line : text) (rest : list text) :
  rest <> [] -> well_split (line :: rest) = complete_line line && well_split rest.
Proof. destruct rest; [congruence|reflexivity]. Qed.

Lemma well_split_app (A B : list text) :
  well_split (A ++ B) = true -> B <> [] ->
  forallb complete_line A = true /\ well_split B = true.
Proof.
  intros H HB. induction A as [|l A IH]; [now split|].
  cbn [app] in H. rewrite well_split_cons in H by (destruct A, B; cbn; congruence).
  apply andb_true_iff in H as [Hl HA]. destruct (IH HA) as [H1 H2].
  cbn [forallb]. now rewrite Hl, H1.
Qed.

Lemma splitlines_well_split (B : list text) :
  well_split B = true -> splitlines true (join B) = B.
Proof.
  induction B as [|l B IH]; [reflexivity|].
  destruct B as [|l2 B].
  - cbn [well_split]. unfold join. cbn [concat]. intros H.
    apply orb_true_iff in H as [H|H].
    + rewrite splitlines_complete_line by assumption. reflexivity.
    + apply andb_true_iff in H as [Hne Hlb]. rewrite app_nil_r.
      unfold splitlines. rewrite <- (app_nil_r l) at 1.
      rewrite splitlines_acc_body by assumption. rewrite app_nil_r.
      cbn [splitlines_acc]. destruct (rev l) eqn:E.
      * apply (f_equal (@rev char)) in E. rewrite rev_involutive in E.
        subst l. discriminate.
      * rewrite <- E, rev_involutive. reflexivity.
  - rewrite well_split_cons by discriminate. intros H.
    apply andb_true_iff in H as [Hl HB]. unfold join in *.
    cbn [concat] in *. rewrite splitlines_complete_line by assumption.
    f_equal. now apply IH.
Qed.

Lemma well_split_splitlines_acc (t cur : text) :
  no_cr t = true -> no_linebreak cur = true ->
  well_split (splitlines_acc true cur t) = true.
Proof.
  revert cur; induction t as [|c t IH]; intros cur Ht Hcur.
  - cbn [splitlines_acc]. destruct cur as [|x cur]; [reflexivity|].
    cbn [well_split]. apply orb_true_iff. right.
    apply andb_true_iff. split.
    + destruct (rev (x :: cur)) eqn:E; [|reflexivity].
      apply (f_equal (@rev char)) in E. rewrite rev_involutive in E. discriminate.
    + unfold no_linebreak in *. rewrite forallb_forall in *.
      intros y Hy. apply Hcur. now apply in_rev.
  - cbn [no_cr forallb] in Ht. apply andb_true_iff in Ht as [Hc Ht].
    apply negb_true_iff in Hc. cbn [splitlines_acc].
    destruct (is_linebreak c) eqn:Elb.
    + assert (Hline : complete_line (rev (c :: cur)) = true).
      { cbn [rev]. apply complete_line_intro; try assumption.
        unfold no_linebreak in *. rewrite forallb_forall in *.
        intros y Hy. apply Hcur. now apply in_rev. }
      destruct t as [|c2 t].
      * cbn [well_split]. now rewrite Hline.
      * rewrite Hc. cbn [andb].
        specialize (IH [] Ht eq_refl).
        destruct (splitlines_acc true [] (c2 :: t)) as [|l ls] eqn:E.
        -- cbn [well_split]. now rewrite Hline.
        -- rewrite well_split_cons by discriminate. now rewrite Hline, IH.
    + apply IH; [assumption|]. cbn [no_linebreak forallb]. now rewrite Elb.
Qed.

(** The lines read from a file form a well-split list. *)
Lemma well_split_splitlines (t : text) :
  no_cr t = true -> well_split (splitlines true t) = true.
Proof. intros H. now apply well_split_splitlines_acc. Qed.

(** A text is a terminated part followed by a part without line boundary. *)
Lemma last_line_decomposition (a : text) :
  exists a1 a2, a = a1 ++ a2 /\ terminated a1 = true /\ no_linebreak a2 = true.
Proof.
  induction a as [|c a IH] using rev_ind.
  - now exists [], [].
  - destruct IH as (a1 & a2 & -> & H1 & H2).
    destruct (is_linebreak c) eqn:E.
    + exists ((a1 ++ a2) ++ [c]), []. rewrite app_nil_r, terminated_snoc.
      now repeat split.
    + exists a1, (a2 ++ [c]). rewrite app_assoc. repeat split; [assumption|].
      rewrite no_linebreak_app, H2. cbn [no_linebreak forallb]. now rewrite E.
Qed.

(** ** Reading an entry line back *)

Lemma dropwhile_stop (p : char -> bool) (ws : text) (c : char) (rest : text) :
  forallb p ws = true -> p c = false -> dropwhile p (ws ++ c :: rest) = c :: rest.
Proof.
  intros Hws Hc. induction ws as [|x ws IH]; cbn [app dropwhile].
  - now rewrite Hc.
  - cbn [forallb] in Hws. apply andb_true_iff in Hws as [Hx Hws].
    rewrite Hx. now apply IH.
Qed.

Lemma split_acc_body (sep : char) (body cur rest : text) :
  contains sep body = false ->
  split_acc sep cur (body ++ sep :: rest) = (rev cur ++ body) :: split_acc sep [] rest.
Proof.
  unfold contains. revert cur; induction body as [|c body IH]; intros cur H.
  - cbn [app split_acc]. now rewrite N.eqb_refl, app_nil_r.
  - cbn [existsb] in H. apply orb_false_iff in H as [Hc Hb].
    cbn [app split_acc]. rewrite N.eqb_sym, Hc, (IH (c :: cur) Hb).
    cbn [rev]. now rewrite <- app_assoc.
Qed.

(** The trimmed content of an entry line behind whitespace [ws]. *)
Lemma strip_entry_line (ws key : text) :
  forallb is_space ws = true ->
  strip (ws ++ quoted key ++ [TAB; TAB] ++ quoted [] ++ [LF])
  = DQUOTE :: key ++ [DQUOTE; TAB; TAB; DQUOTE; DQUOTE].
Proof.
  intros Hws. unfold strip, lstrip, rstrip, quoted. cbn [app].
  rewrite dropwhile_stop by (assumption || reflexivity).
  replace (DQUOTE :: (key ++ [DQUOTE]) ++ [TAB; TAB; DQUOTE; DQUOTE; LF])
    with ((DQUOTE :: key ++ [DQUOTE; TAB; TAB; DQUOTE]) ++ [DQUOTE; LF])
    by (cbn [app]; rewrite <- !app_assoc; reflexivity).
  rewrite rev_app_distr. cbn [rev app dropwhile].
  replace (is_space LF) with true by reflexivity.
  replace (is_space DQUOTE) with false by reflexivity.
  cbn [rev]. rewrite !rev_app_distr, rev_involutive. cbn [rev app].
  rewrite <- app_assoc. reflexivity.
Qed.

(** An entry line is read back as an entry with the key it was written
    with, when the key holds no double quote. *)
Lemma entry_line_key (ws key : text) :
  forallb is_space ws = true -> contains DQUOTE key = false ->
  let line := ws ++ quoted key ++ [TAB; TAB] ++ quoted [] ++ [LF] in
  starts_quoted line = true /\ nth 1 (split DQUOTE (strip line)) [] = key.
Proof.
  intros Hws Hkey line. subst line. unfold starts_quoted.
  rewrite strip_entry_line by assumption. split; [reflexivity|].
  unfold split. cbn [split_acc]. rewrite N.eqb_refl.
  rewrite split_acc_body by assumption. reflexivity.
Qed.

Lemma startswith_contains (c : char) (s : text) :
  startswith [c] s = true -> contains c s = true.
Proof.
  destruct s as [|x s]; cbn [startswith]; [discriminate|].
  intros H. apply andb_true_iff in H as [H _]. unfold contains. cbn [existsb].
  now rewrite H.
Qed.

Lemma current_maps_loop_In (lines : list text) (idxs : list nat) (i : nat) :
  In i idxs -> starts_quoted (nth i lines []) = true ->
  In (nth 1 (split DQUOTE (strip (nth i lines []))) []) (current_maps_loop lines idxs).
Proof.
  intros Hi Hq. induction idxs as [|j idxs IH]; [destruct Hi|].
  cbn [current_maps_loop]. destruct Hi as [->|Hi].
  - unfold starts_quoted in Hq. rewrite Hq, (startswith_contains _ _ Hq).
    now left.
  - destruct (_ && _); [right|]; now apply IH.
Qed.

Lemma current_maps_in_block_In (lines : list text) (s e i : nat) :
  s <= i < e -> starts_quoted (nth i lines []) = true ->
  In (nth 1 (split DQUOTE (strip (nth i lines []))) [])
    (current_maps_in_block lines s e).
Proof.
  intros Hi Hq. apply current_maps_loop_In; [|assumption].
  apply in_seq. lia.
Qed.

(** ** The locator in two stages *)

Lemma find_maps_header_bounds (rest : list text) (j : nat) (d : Z) (jm : nat) :
  find_maps_header rest j d = Some jm -> j <= jm < j + length rest.
Proof.
  revert j d; induction rest as [|line rest IH]; intros j d;
    cbn [find_maps_header length]; [discriminate|].
  destruct (d >? 0)%Z; [|discriminate].
  destruct (startswith _ _).
  - intros H. injection H as <-. lia.
  - intros H. apply IH in H. lia.
Qed.

Lemma find_maps_block_eq (lines : list text) (g : text) (gs : nat)
    (rest : list text) (j : nat) (d : Z) :
  find_maps_block lines g gs rest j d
  = match find_maps_header rest j d with
    | None => Error (NoMapsBlock g)
    | Some jm =>
        match scan_until has_lbrace (skipn (jm - j) rest) jm with
        | None => Error (MalformedMaps g)
        | Some k =>
            match find_maps_end (skipn (k + 1) lines) (k + 1) 1 with
            | Some e => Ok (gs, k + 1, e, infer_maps_indent lines (k + 1) e)
            | None => Error (MalformedMaps g)
            end
        end
    end.
Proof.
  revert j d; induction rest as [|line rest IH]; intros j d;
    cbn [find_maps_block find_maps_header]; [reflexivity|].
  destruct (d >? 0)%Z; [|reflexivity].
  destruct (startswith _ _).
  - rewrite Nat.sub_diag. reflexivity.
  - rewrite IH.
    destruct (find_maps_header rest (S j) (walk_braces d line)) as [jm|] eqn:E;
      [|reflexivity].
    apply find_maps_header_bounds in E.
    replace (jm - j) with (S (jm - S j)) by lia. reflexivity.
Qed.

Lemma find_group_and_maps_block_ok (lines : list text) (g : text) (gs s e : nat)
    (indent : text) :
  find_group_and_maps_block lines g = Ok (gs, s, e, indent)
  <-> maps_block_start lines g = Some (gs, s)
      /\ find_maps_end (skipn s lines) s 1 = Some e
      /\ indent = infer_maps_indent lines s e.
Proof.
  unfold find_group_and_maps_block, maps_block_start.
  destruct (scan_until is_mapgroups_header lines 0) as [i0|];
    [|split; [discriminate|intros [H _]; discriminate]].
  destruct (scan_until has_lbrace (skipn (i0 + 1) lines) (i0 + 1)) as [i1|];
    [|split; [discriminate|intros [H _]; discriminate]].
  destruct (find_group_header g (skipn (i1 + 1) lines) (i1 + 1) 1) as [gs0|];
    [|split; [discriminate|intros [H _]; discriminate]].
  destruct (scan_until has_lbrace (skipn gs0 lines) gs0) as [j|];
    [|split; [discriminate|intros [H _]; discriminate]].
  rewrite find_maps_block_eq.
  destruct (find_maps_header (skipn (j + 1) lines) (j + 1) 1) as [jm|] eqn:Ejm;
    [|split; [discriminate|intros [H _]; discriminate]].
  apply find_maps_header_bounds in Ejm.
  rewrite skipn_skipn. replace (jm - (j + 1) + (j + 1)) with jm by lia.
  destruct (scan_until has_lbrace (skipn jm lines) jm) as [k|];
    [|split; [discriminate|intros [H _]; discriminate]].
  split.
  - destruct (find_maps_end (skipn (k + 1) lines) (k + 1) 1) as [e0|] eqn:Ee;
      [|discriminate].
    intros H. injection H as <- <- <- <-. now repeat split.
  - intros (H1 & H2 & H3). injection H1 as <- <-. now rewrite H2, H3.
Qed.

(** *** What the first stage reads *)

Lemma scan_until_prefix (p : text -> bool) (P X Y : list text) (i k : nat) :
  scan_until p (P ++ X) i = Some k -> k < i + length P ->
  scan_until p (P ++ Y) i = Some k.
Proof.
  revert i; induction P as [|line P IH]; intros i H Hk.
  - apply scan_until_spec in H. cbn [length] in Hk. lia.
  - cbn [app scan_until length] in *. destruct (p line); [assumption|].
    apply IH; [assumption|lia].
Qed.

Lemma find_group_header_prefix (g : text) (P X Y : list text) (i : nat) (d : Z) (k : nat) :
  find_group_header g (P ++ X) i d = Some k -> k < i + length P ->
  find_group_header g (P ++ Y) i d = Some k.
Proof.
  revert i d; induction P as [|line P IH]; intros i d H Hk.
  - apply find_group_header_bounds in H. cbn [length] in Hk. lia.
  - cbn [app find_group_header length] in *. destruct (d >? 0)%Z; [|discriminate].
    destruct (startswith _ _); [assumption|]. apply IH; [assumption|lia].
Qed.

Lemma find_maps_header_prefix (P X Y : list text) (i : nat) (d : Z) (k : nat) :
  find_maps_header (P ++ X) i d = Some k -> k < i + length P ->
  find_maps_header (P ++ Y) i d = Some k.
Proof.
  revert i d; induction P as [|line P IH]; intros i d H Hk.
  - apply find_maps_header_bounds in H. cbn [length] in Hk. lia.
  - cbn [app find_maps_header length] in *. destruct (d >? 0)%Z; [|discriminate].
    destruct (startswith _ _); [assumption|]. apply IH; [assumption|lia].
Qed.

Lemma skipn_app_prefix (A : Type) (n : nat) (P X : list A) :
  n <= length P -> skipn n (P ++ X) = skipn n P ++ X.
Proof.
  intros H. rewrite skipn_app. replace (n - length P) with 0 by lia. reflexivity.
Qed.

Lemma scan_until_skipn_prefix (p : text -> bool) (A X Y : list text) (n k : nat) :
  scan_until p (skipn n (A ++ X)) n = Some k -> k < length A ->
  scan_until p (skipn n (A ++ Y)) n = Some k.
Proof.
  intros H Hk. pose proof (scan_until_spec _ _ _ H) as [Hb _].
  rewrite skipn_app_prefix in * by lia.
  apply (scan_until_prefix _ _ _ Y _ H). rewrite length_skipn. lia.
Qed.

Lemma find_group_header_skipn_prefix (g : text) (A X Y : list text) (n : nat)
    (d : Z) (k : nat) :
  find_group_header g (skipn n (A ++ X)) n d = Some k -> k < length A ->
  find_group_header g (skipn n (A ++ Y)) n d = Some k.
Proof.
  intros H Hk. pose proof (find_group_header_bounds _ _ _ _ H) as [Hb _].
  rewrite skipn_app_prefix in * by lia.
  apply (find_group_header_prefix _ _ _ Y _ _ H). rewrite length_skipn. lia.
Qed.

Lemma find_maps_header_skipn_prefix (A X Y : list text) (n : nat) (d : Z) (k : nat) :
  find_maps_header (skipn n (A ++ X)) n d = Some k -> k < length A ->
  find_maps_header (skipn n (A ++ Y)) n d = Some k.
Proof.
  intros H Hk. pose proof (find_maps_header_bounds _ _ _ H) as Hb.
  rewrite skipn_app_prefix in * by lia.
  apply (find_maps_header_prefix _ _ Y _ _ H). rewrite length_skipn. lia.
Qed.

(** The first stage reads the lines before [maps_content_start] only. *)
Lemma maps_block_start_prefix (A X Y : list text) (g : text) (gs s : nat) :
  maps_block_start (A ++ X) g = Some (gs, s) -> s <= length A ->
  maps_block_start (A ++ Y) g = Some (gs, s).
Proof.
  unfold maps_block_start. intros H Hs.
  destruct (scan_until is_mapgroups_header (A ++ X) 0) as [i0|] eqn:E0;
    [|discriminate].
  destruct (scan_until has_lbrace (skipn (i0 + 1) (A ++ X)) (i0 + 1)) as [i1|] eqn:E1;
    [|discriminate].
  destruct (find_group_header g (skipn (i1 + 1) (A ++ X)) (i1 + 1) 1) as [gs0|] eqn:E2;
    [|discriminate].
  destruct (scan_until has_lbrace (skipn gs0 (A ++ X)) gs0) as [j|] eqn:E3;
    [|discriminate].
  destruct (find_maps_header (skipn (j + 1) (A ++ X)) (j + 1) 1) as [jm|] eqn:E4;
    [|discriminate].
  destruct (scan_until has_lbrace (skipn jm (A ++ X)) jm) as [k|] eqn:E5;
    [|discriminate].
  injection H as <- <-.
  pose proof (scan_until_spec _ _ _ E1) as [B1 _].
  pose proof (find_group_header_bounds _ _ _ _ E2) as [B2 _].
  pose proof (scan_until_spec _ _ _ E3) as [B3 _].
  pose proof (find_maps_header_bounds _ _ _ E4) as B4.
  pose proof (scan_until_spec _ _ _ E5) as [B5 _].
  rewrite (scan_until_prefix _ _ _ Y _ E0) by lia.
  rewrite (scan_until_skipn_prefix _ _ _ Y _ E1) by lia.
  rewrite (find_group_header_skipn_prefix _ _ _ Y _ _ E2) by lia.
  rewrite (scan_until_skipn_prefix _ _ _ Y _ E3) by lia.
  rewrite (find_maps_header_skipn_prefix _ _ Y _ _ E4) by lia.
  rewrite (scan_until_skipn_prefix _ _ _ Y _ E5) by lia.
  reflexivity.
Qed.

(** *** The second stage over inserted lines *)

Lemma find_maps_end_positive (B : list text) (m : nat) (d : Z) (e : nat) :
  find_maps_end B m d = Some e -> (d >? 0)%Z = true.
Proof.
  destruct B; cbn [find_maps_end]; [discriminate|].
  destruct (d >? 0)%Z; [reflexivity|discriminate].
Qed.

Lemma find_maps_end_shift (B : list text) (m : nat) (d : Z) :
  find_maps_end B (S m) d = option_map S (find_maps_end B m d).
Proof.
  revert m d; induction B as [|line B IH]; intros m d; cbn [find_maps_end];
    [reflexivity|].
  destruct (d >? 0)%Z; [|reflexivity]. cbv zeta.
  destruct (_ =? 0)%Z; [reflexivity|]. apply IH.
Qed.

Lemma find_maps_end_neutral (N B : list text) (m : nat) (d : Z) (e : nat) :
  forallb neutral N = true -> find_maps_end B m d = Some e ->
  find_maps_end (N ++ B) m d = Some (e + length N).
Proof.
  intros HN HB. pose proof (find_maps_end_positive _ _ _ HB) as Hd.
  induction N as [|line N IH]; cbn [app length].
  - now rewrite Nat.add_0_r.
  - cbn [forallb] in HN. apply andb_true_iff in HN as [Hl HN].
    unfold neutral in Hl. apply Z.eqb_eq in Hl.
    cbn [find_maps_end]. rewrite Hd. cbv zeta.
    replace (d + count LBRACE line - count RBRACE line)%Z with d by lia.
    replace (d =? 0)%Z with false by (symmetry; apply Z.eqb_neq; apply Z.gtb_lt in Hd; lia).
    rewrite find_maps_end_shift, (IH HN). cbn [option_map]. f_equal. lia.
Qed.

Lemma find_maps_end_insert (P N B : list text) (m : nat) (d : Z) (e : nat) :
  forallb neutral N = true ->
  find_maps_end (P ++ B) m d = Some e -> m + length P <= e ->
  find_maps_end (P ++ N ++ B) m d = Some (e + length N).
Proof.
  intros HN. revert m d; induction P as [|line P IH]; intros m d H Hlen.
  - cbn [app] in *. now apply find_maps_end_neutral.
  - cbn [app find_maps_end length] in *.
    destruct (d >? 0)%Z; [|discriminate]. cbv zeta in *.
    destruct (_ =? 0)%Z.
    + injection H as <-. lia.
    + apply IH; [assumption|lia].
Qed.

(** Lines that leave the depth as it is, put inside a located maps block,
    move its end and nothing else. *)
Lemma locate_after_insert (A N B : list text) (g : text) (gs s e : nat) (indent : text) :
  find_group_and_maps_block (A ++ B) g = Ok (gs, s, e, indent) ->
  s <= length A <= e -> forallb neutral N = true ->
  find_group_and_maps_block (A ++ N ++ B) g
  = Ok (gs, s, e + length N, infer_maps_indent (A ++ N ++ B) s (e + length N)).
Proof.
  intros H Hlen HN. apply find_group_and_maps_block_ok in H as (H1 & H2 & _).
  apply find_group_and_maps_block_ok. split; [|split; [|reflexivity]].
  - apply (maps_block_start_prefix _ _ (N ++ B) _ H1). lia.
  - rewrite skipn_app_prefix in * by lia.
    apply find_maps_end_insert; [assumption..|]. rewrite length_skipn. lia.
Qed.

(** ** The second run *)

Lemma forallb_concat_In (p : char -> bool) (L : list text) (l : text) :
  forallb p (concat L) = true -> In l L -> forallb p l = true.
Proof.
  induction L as [|x L IH]; [intros _ []|]. cbn [concat]. rewrite forallb_app.
  intros H [<-|Hin]; apply andb_true_iff in H as [Hx HL]; [assumption|now apply IH].
Qed.

Lemma forallb_firstn (p : char -> bool) (n : nat) (l : text) :
  forallb p l = true -> forallb p (firstn n l) = true.
Proof.
  rewrite !forallb_forall. intros H x Hx. apply H.
  rewrite <- (firstn_skipn n l). apply in_or_app. now left.
Qed.

Lemma infer_maps_indent_shape (lines : list text) (s e : nat) :
  infer_maps_indent lines s e = repeat TAB 4
  \/ exists i, infer_maps_indent lines s e = leading_ws (nth i lines []).
Proof.
  unfold infer_maps_indent. rewrite infer_maps_indent_loop_exact.
  destruct (find _ _) as [i|]; [right; now exists i|now left].
Qed.

(** The indentation token is whitespace. *)
Lemma infer_maps_indent_space (lines : list text) (s e : nat) :
  forallb is_space (infer_maps_indent lines s e) = true.
Proof.
  destruct (infer_maps_indent_shape lines s e) as [->|[i ->]]; [reflexivity|].
  apply leading_ws_spec.
Qed.

Lemma infer_maps_indent_no_cr (lines : list text) (s e : nat) :
  (forall l, In l lines -> no_cr l = true) ->
  no_cr (infer_maps_indent lines s e) = true.
Proof.
  intros H. destruct (infer_maps_indent_shape lines s e) as [->|[i ->]];
    [reflexivity|].
  apply forallb_firstn.
  destruct (nth_in_or_default i lines []) as [Hin| ->]; [now apply H|reflexivity].
Qed.

Lemma count_space (c : char) (w : text) :
  forallb is_space w = true -> is_space c = false -> count c w = 0%Z.
Proof.
  intros Hw Hc. apply contains_false_count. unfold contains.
  destruct (existsb (N.eqb c) w) eqn:E; [|reflexivity].
  apply existsb_exists in E as (x & Hx & Ex). apply N.eqb_eq in Ex. subst x.
  rewrite forallb_forall in Hw. rewrite (Hw c Hx) in Hc. discriminate.
Qed.

Lemma neutral_space (w : text) : forallb is_space w = true -> neutral w = true.
Proof.
  intros H. unfold neutral.
  rewrite !count_space by (assumption || reflexivity). reflexivity.
Qed.

Lemma plain_key_inv (key : text) :
  plain_key key = true ->
  contains DQUOTE key = false /\ no_linebreak key = true
  /\ count LBRACE key = count RBRACE key.
Proof.
  unfold plain_key. intros H.
  apply andb_true_iff in H as [H Hc]. apply andb_true_iff in H as [Hq Hl].
  apply negb_true_iff in Hq. apply Z.eqb_eq in Hc. now repeat split.
Qed.

Section EntryLine.
Variables ws key : text.
Hypothesis ws_space : forallb is_space ws = true.
Hypothesis key_plain : plain_key key = true.

Let line : text := ws ++ quoted key ++ [TAB; TAB] ++ quoted [] ++ [LF].

Lemma entry_line_neutral : neutral line = true.
Proof.
  destruct (plain_key_inv _ key_plain) as (_ & _ & Hc).
  unfold neutral, line, quoted. cbn [app].
  rewrite !count_app, !(count_space _ _ ws_space) by reflexivity.
  cbn [count]. rewrite !count_app. cbn [count N.eqb LBRACE RBRACE DQUOTE TAB LF Pos.eqb].
  apply Z.eqb_eq. lia.
Qed.

Lemma entry_line_complete : no_linebreak ws = true -> complete_line line = true.
Proof.
  intros Hws. destruct (plain_key_inv _ key_plain) as (_ & Hl & _).
  unfold line, quoted.
  replace (ws ++ (DQUOTE :: key ++ [DQUOTE]) ++ [TAB; TAB] ++ (DQUOTE :: [] ++ [DQUOTE]) ++ [LF])
    with ((ws ++ DQUOTE :: key ++ [DQUOTE; TAB; TAB; DQUOTE; DQUOTE]) ++ [LF])
    by (repeat (rewrite <- app_assoc || cbn [app]); reflexivity).
  apply complete_line_intro; try reflexivity.
  rewrite no_linebreak_app, Hws. cbn [no_linebreak forallb andb].
  change (forallb (fun c => negb (is_linebreak c)) (key ++ [DQUOTE; TAB; TAB; DQUOTE; DQUOTE]))
    with (no_linebreak (key ++ [DQUOTE; TAB; TAB; DQUOTE; DQUOTE])).
  rewrite no_linebreak_app, Hl. reflexivity.
Qed.

Lemma entry_line_no_cr : no_cr ws = true -> no_cr line = true.
Proof.
  intros Hws. destruct (plain_key_inv _ key_plain) as (_ & Hl & _).
  unfold line, quoted. cbn [app].
  rewrite no_cr_app, Hws. cbn [no_cr forallb andb].
  change (forallb (fun c => negb (N.eqb c CR))
            ((key ++ [DQUOTE]) ++ [TAB; TAB; DQUOTE; DQUOTE; LF]))
    with (no_cr ((key ++ [DQUOTE]) ++ [TAB; TAB; DQUOTE; DQUOTE; LF])).
  rewrite !no_cr_app, (no_linebreak_no_cr _ Hl). reflexivity.
Qed.
End EntryLine.

Lemma terminated_no_cr_split (a b : text) :
  no_cr a = true ->
  match rev a with c :: _ => crlf_split c b = false | [] => True end.
Proof.
  intros H. destruct (rev a) as [|c r] eqn:E; [exact I|].
  unfold no_cr in H. rewrite forallb_forall in H.
  assert (Hc : In c a) by (apply in_rev; rewrite E; now left).
  apply H in Hc. apply negb_true_iff in Hc. unfold crlf_split. now rewrite Hc.
Qed.

Lemma join_app (A B : list text) : join (A ++ B) = join A ++ join B.
Proof. apply concat_app. Qed.

(** The document written after an insertion and read again: the lines around
    the new entry are the lines that were there; the new entry is read as a
    line of its own, behind what the indentation token may hold of earlier
    lines; the block is found where it was, one or more lines longer, and the
    key is one of its keys. *)
Lemma reread_after_insert (T g : text) (gs s e : nat) (indent key : text) (idx : nat) :
  no_cr T = true ->
  find_group_and_maps_block (splitlines true T) g = Ok (gs, s, e, indent) ->
  plain_key key = true -> s <= idx <= e ->
  let lines2 :=
    splitlines true
      (universal_newlines
         (join (list_insert idx (new_entry_line indent key) (splitlines true T)))) in
  exists e2 indent2,
    find_group_and_maps_block lines2 g = Ok (gs, s, e2, indent2)
    /\ In key (current_maps_in_block lines2 s e2).
Proof.
  intros HT Hloc Hkey Hidx.
  set (lines := splitlines true T) in *.
  pose proof (find_group_and_maps_block_bounds _ _ Hloc) as (_ & Hse & Hind & _).
  pose proof (well_split_splitlines T HT) as Hws. fold lines in Hws.
  assert (Hjoin : join lines = T) by apply join_splitlines.
  assert (Hcr : forall l, In l lines -> no_cr l = true).
  { intros l Hl. apply (forallb_concat_In _ lines); [|assumption].
    unfold join in Hjoin. now rewrite Hjoin. }
  set (A := firstn idx lines). set (B := skipn idx lines).
  assert (HAB : lines = A ++ B) by (symmetry; apply firstn_skipn).
  assert (HlenA : length A = idx) by (subst A; rewrite length_firstn; lia).
  assert (HB : B <> []).
  { intros E. apply (f_equal (@length text)) in E. subst B.
    rewrite length_skipn in E. cbn [length] in E. lia. }
  rewrite HAB in Hws. destruct (@well_split_app A B Hws HB) as [HA HBw].
  assert (Hsp : forallb is_space indent = true)
    by (rewrite Hind; apply infer_maps_indent_space).
  assert (Hicr : no_cr indent = true)
    by (rewrite Hind; now apply infer_maps_indent_no_cr).
  destruct (last_line_decomposition indent) as (a1 & a2 & Ei & Ha1 & Ha2).
  rewrite Ei in Hsp, Hicr. rewrite forallb_app in Hsp. rewrite no_cr_app in Hicr.
  apply andb_true_iff in Hsp as [Hsp1 Hsp2].
  apply andb_true_iff in Hicr as [Hcr1 Hcr2].
  set (line := a2 ++ quoted key ++ [TAB; TAB] ++ quoted [] ++ [LF]).
  assert (Hnew : new_entry_line indent key = a1 ++ line).
  { unfold new_entry_line, line. rewrite Ei, <- app_assoc. reflexivity. }
  assert (Hline_cr : no_cr line = true) by exact (entry_line_no_cr a2 key Hkey Hcr2).
  assert (Hline_complete : complete_line line = true)
    by exact (entry_line_complete a2 key Hkey Ha2).
  assert (Hline_neutral : neutral line = true)
    by exact (entry_line_neutral a2 key Hsp2 Hkey).
  set (N := splitlines true a1 ++ [line]).
  assert (Hread :
    splitlines true
      (universal_newlines (join (list_insert idx (new_entry_line indent key) lines)))
    = A ++ N ++ B).
  { unfold list_insert. fold A B. rewrite Hnew, join_app.
    change (join ((a1 ++ line) :: B)) with ((a1 ++ line) ++ join B).
    rewrite universal_newlines_no_cr.
    - rewrite splitlines_complete_lines by assumption. f_equal.
      rewrite <- app_assoc.
      rewrite splitlines_app by (assumption || now apply terminated_no_cr_split).
      rewrite splitlines_complete_line by assumption.
      rewrite splitlines_well_split by assumption.
      subst N. rewrite <- app_assoc. reflexivity.
    - assert (HjAB : no_cr (join A ++ join B) = true)
        by (rewrite <- join_app, <- HAB, Hjoin; exact HT).
      rewrite no_cr_app in HjAB. apply andb_true_iff in HjAB as [HjA HjB].
      now rewrite !no_cr_app, HjA, Hcr1, HjB, Hline_cr. }
  cbv zeta. fold lines. rewrite Hread.
  assert (HN : forallb neutral N = true).
  { subst N. rewrite forallb_app. apply andb_true_iff. split.
    - apply forallb_forall. intros l Hl. apply neutral_space.
      apply (forallb_concat_In _ (splitlines true a1)); [|assumption].
      change (concat (splitlines true a1)) with (join (splitlines true a1)).
      now rewrite join_splitlines.
    - cbn [forallb]. now rewrite Hline_neutral. }
  rewrite HAB in Hloc.
  pose proof (@locate_after_insert A N B g gs s e indent Hloc ltac:(lia) HN) as Hloc2.
  eexists _, _. split; [exact Hloc2|].
  destruct (plain_key_inv _ Hkey) as (Hq & _ & _).
  destruct (entry_line_key a2 key Hsp2 Hq) as [Hstart Hsplit]. fold line in Hstart, Hsplit.
  set (i := length A + length (splitlines true a1)).
  assert (Hnth : nth i (A ++ N ++ B) [] = line).
  { subst i N. rewrite app_nth2 by lia.
    replace (length A + length (splitlines true a1) - length A)
      with (length (splitlines true a1)) by lia.
    rewrite <- app_assoc, app_nth2 by lia. now rewrite Nat.sub_diag. }
  rewrite <- Hsplit, <- Hnth. apply current_maps_in_block_In.
  - subst i N. rewrite length_app. cbn [length]. lia.
  - now rewrite Hnth.
Qed.

Lemma add_workshop_id_other (fs : FS) (p : string) (tok : text) (dry : bool) (q : string) :
  String.eqb q p = false -> fst (add_workshop_id fs p tok dry) q = fs q.
Proof.
  intros H. rewrite add_workshop_id_eq.
  destruct (is_subscribed fs p tok), dry; cbn [fst]; try reflexivity.
  unfold fs_write. now rewrite H.
Qed.

Lemma add_workshop_id_keeps (fs : FS) (p : string) (tok : text) (dry : bool) (q : string) :
  exists_file fs q = true -> exists_file (fst (add_workshop_id fs p tok dry)) q = true.
Proof.
  intros H. rewrite add_workshop_id_eq.
  destruct (is_subscribed fs p tok), dry; cbn [fst]; try assumption.
  unfold exists_file, fs_write in *. now destruct (String.eqb q p).
Qed.

(** A run that finds the key in the block: nothing is inserted, and only the
    list appender may write. *)
Lemma add_map_to_group_present (fs : FS) (gm sub : string) (g m : text)
    (w : option text) (dry : bool) (pos : text) (lines : list text)
    (gs s e : nat) (indent : text) :
  read_lines fs gm = Ok lines ->
  find_group_and_maps_block lines g = Ok (gs, s, e, indent) ->
  In (format_map_key m w) (current_maps_in_block lines s e) ->
  add_map_to_group fs gm sub g m w dry pos
  = Ok (if truthy w then fst (add_workshop_id fs sub (opt_text w) dry) else fs,
        SkipMap g (format_map_key m w)
        :: (if truthy w
            then [if snd (add_workshop_id fs sub (opt_text w) dry)
                  then Subscribed (opt_text w) dry else SkipWorkshop (opt_text w)]
            else [])).
Proof.
  intros Hr Hl Hin. apply existsb_text_eqb in Hin.
  rewrite add_map_to_group_eq, Hr, Hl. cbv zeta. rewrite Hin. cbn [orb].
  destruct (truthy w); reflexivity.
Qed.

(** What a successful run without dry-run leaves in the primary file. *)
Lemma add_map_to_group_primary (fs fs1 : FS) (gm sub : string) (g m : text)
    (w : option text) (pos : text) (out1 : list Msg) :
  String.eqb gm sub = false ->
  add_map_to_group fs gm sub g m w false pos = Ok (fs1, out1) ->
  exists t0 gs s e indent,
    fs gm = Some t0
    /\ find_group_and_maps_block (splitlines true (universal_newlines t0)) g
       = Ok (gs, s, e, indent)
    /\ fs1 gm
       = if existsb (text_eqb (format_map_key m w))
              (current_maps_in_block (splitlines true (universal_newlines t0)) s e)
         then fs gm
         else Some (join (insert_map (splitlines true (universal_newlines t0))
                            s e indent (format_map_key m w) pos)).
Proof.
  intros Hsub H. rewrite add_map_to_group_eq in H.
  unfold read_lines, read_text in H.
  destruct (fs gm) as [t0|] eqn:Egm; cbn [option_map] in H; [|discriminate].
  destruct (find_group_and_maps_block _ g) as [[[[gs s] e] indent]|] eqn:El;
    [|discriminate].
  cbv zeta in H. exists t0, gs, s, e, indent.
  split; [reflexivity|]. split; [exact El|].
  set (dup := existsb _ _) in *. rewrite orb_false_r in H.
  set (fsA := if dup then fs else _) in H.
  assert (HA : fsA gm = if dup then fs gm else
             Some (join (insert_map (splitlines true (universal_newlines t0))
                           s e indent (format_map_key m w) pos))).
  { subst fsA. destruct dup; [reflexivity|].
    unfold write_lines, write_text, fs_write. now rewrite String.eqb_refl. }
  rewrite Egm in HA. rewrite <- HA.
  destruct (truthy w); injection H as <- _; [|reflexivity].
  now apply add_workshop_id_other.
Qed.

(** The second run of [add_map_to_group] after a successful first run with
    the same arguments, for a plain key. *)
Lemma add_map_to_group_twice (fs fs1 : FS) (gm sub : string) (g m : text)
    (w : option text) (pos : text) (out1 : list Msg) :
  String.eqb gm sub = false -> String.eqb (backup_path gm) sub = false ->
  plain_key (format_map_key m w) = true ->
  add_map_to_group fs gm sub g m w false pos = Ok (fs1, out1) ->
  exists fs2 rest,
    add_map_to_group fs1 gm sub g m w false pos
    = Ok (fs2, SkipMap g (format_map_key m w) :: rest)
    /\ ~ In MapInserted (outcomes rest)
    /\ fs2 gm = fs1 gm
    /\ fs2 (backup_path gm) = fs1 (backup_path gm).
Proof.
  intros Hsub Hbak Hkey H.
  destruct (add_map_to_group_primary _ _ _ _ _ _ _ Hsub H)
    as (t0 & gs & s & e & indent & Egm & El & E1).
  set (T := universal_newlines t0) in *.
  assert (HT : no_cr T = true) by apply universal_newlines_is_no_cr.
  assert (exists lines2 e2 indent2,
            read_lines fs1 gm = Ok lines2
            /\ find_group_and_maps_block lines2 g = Ok (gs, s, e2, indent2)
            /\ In (format_map_key m w) (current_maps_in_block lines2 s e2))
    as (lines2 & e2 & indent2 & Hr2 & Hl2 & Hin2).
  { destruct (existsb _ _) eqn:Edup.
    - exists (splitlines true T), e, indent. rewrite Egm in E1.
      split; [now rewrite (read_lines_present _ _ E1)|]. split; [exact El|].
      now apply existsb_text_eqb.
    - rewrite insert_map_cases in E1.
      pose proof (find_group_and_maps_block_bounds _ _ El) as (_ & Hse & _).
      set (idx := if text_eqb pos (str "start") then s else e) in *.
      assert (Hidx : s <= idx <= e) by (subst idx; destruct (text_eqb _ _); lia).
      destruct (@reread_after_insert T g gs s e indent (format_map_key m w) idx
                  HT El Hkey Hidx) as (e2 & indent2 & Hl2 & Hin2).
      eexists _, e2, indent2. split; [exact (read_lines_present _ _ E1)|].
      split; assumption. }
  rewrite (add_map_to_group_present fs1 gm sub g m w false pos Hr2 Hl2 Hin2).
  eexists _, _. split; [reflexivity|].
  destruct (truthy w).
  - split; [|split; now apply add_workshop_id_other].
    destruct (snd _); cbn [outcomes In]; intros [Hc|[]]; discriminate Hc.
  - split; [intros []|split; reflexivity].
Qed.

(** A successful run removes no file. *)
Lemma add_map_to_group_keeps_files (fs fs1 : FS) (gm sub : string) (g m : text)
    (w : option text) (dry : bool) (pos : text) (out1 : list Msg) (q : string) :
  add_map_to_group fs gm sub g m w dry pos = Ok (fs1, out1) ->
  exists_file fs q = true -> exists_file fs1 q = true.
Proof.
  intros H Hq. rewrite add_map_to_group_eq in H.
  unfold read_lines, read_text in H.
  destruct (fs gm) as [t0|] eqn:Egm; cbn [option_map] in H; [|discriminate].
  destruct (find_group_and_maps_block _ g) as [[[[gs s] e] indent]|];
    [|discriminate].
  cbv zeta in H. set (fsA := if _ || dry then fs else _) in H.
  assert (HA : exists_file fsA q = true).
  { subst fsA. destruct (_ || dry); [assumption|].
    unfold exists_file, write_lines, write_text, fs_write, backup_file in *.
    cbn [fst]. destruct (String.eqb q gm); [reflexivity|].
    destruct (String.eqb q (backup_path gm)); [now rewrite Egm|assumption]. }
  destruct (truthy w); injection H as <- _; [|assumption].
  now apply add_workshop_id_keeps.
Qed.

(** C2, as the code has it.  Idempotence for plain keys: when the entry key
    holds no double quote, no line boundary and as many opening as closing
    braces, and a first run without dry-run succeeds, a second run with the
    same arguments succeeds, reports the map as already present, inserts
    nothing, and leaves the primary file and its backup as the first run
    left them. *)
Theorem add_map_idempotent (args : Args) (fs : FS) :
  dry_run args = false ->
  plain_key (format_map_key (map_name args) (workshop_id args)) = true ->
  snd (main args fs) = 0%Z ->
  let gm := fst (resolve_paths (custom args)) in
  let fs1 := fst (fst (main args fs)) in
  let second := main args fs1 in
  snd second = 0%Z
  /\ hd_error (outcomes (snd (fst second))) = Some MapAlreadyPresent
  /\ ~ In MapInserted (outcomes (snd (fst second)))
  /\ fst (fst second) gm = fs1 gm
  /\ fst (fst second) (backup_path gm) = fs1 (backup_path gm).
Proof.
  intros Hdry Hkey Hcode gm fs1 second. subst gm fs1 second.
  unfold main in *. rewrite Hdry in *.
  assert (Hd : String.eqb (fst (resolve_paths (custom args)))
                 (snd (resolve_paths (custom args))) = false
               /\ String.eqb (backup_path (fst (resolve_paths (custom args))))
                    (snd (resolve_paths (custom args))) = false)
    by (destruct (custom args); split; reflexivity).
  destruct (resolve_paths (custom args)) as [gm sub]. cbn [fst snd] in Hd.
  destruct Hd as [Hd1 Hd2]. cbn [fst].
  destruct (custom args && _) eqn:Epre1; [discriminate Hcode|].
  destruct (negb (custom args) && _) eqn:Epre2; [discriminate Hcode|].
  destruct (add_map_to_group fs gm sub _ _ _ false _) as [[fs1 out1]|err] eqn:E1;
    [|discriminate Hcode].
  cbn [fst snd].
  pose proof (fun q => @add_map_to_group_keeps_files fs fs1 gm sub _ _ _ _ _ out1 q E1)
    as Hkeep.
  assert (Hgm : exists_file fs gm = true).
  { destruct (custom args), (exists_file fs gm); cbn in Epre1, Epre2;
      congruence. }
  assert (Hsub : custom args = true -> exists_file fs sub = true).
  { intros Hc. rewrite Hc in Epre1. rewrite Hgm in Epre1. cbn in Epre1.
    now apply negb_false_iff in Epre1. }
  rewrite (Hkeep gm Hgm).
  assert (Hpre1 : custom args && (negb true || negb (exists_file fs1 sub)) = false).
  { destruct (custom args); [|reflexivity].
    rewrite (Hkeep sub (Hsub eq_refl)). reflexivity. }
  rewrite Hpre1. cbn [negb]. rewrite andb_false_r.
  destruct (@add_map_to_group_twice fs fs1 gm sub _ _ _ _ out1 Hd1 Hd2 Hkey E1)
    as (fs2 & rest & E2 & Hrest & Hgm2 & Hbak2).
  rewrite E2. cbn [fst snd outcomes hd_error].
  split; [reflexivity|]. split; [reflexivity|].
  split; [|split; assumption].
  cbn [In]. intros [Hc|Hc]; [discriminate Hc|contradiction].
Qed.

Lemma add_map_idempotent_witness :
  let args := cli "mg_active" "de_train" (Some (str "3070284539")) false "end" in
  let fs := fs_of (Some (join doc_dust2)) None in
  let fs1 := fst (fst (main args fs)) in
  let second := main args fs1 in
  dry_run args = false
  /\ plain_key (format_map_key (map_name args) (workshop_id args)) = true
  /\ main args fs
     = (fs1, [Backup (backup_path gm_path);
              AddedMap (str "mg_active") (str "workshop/3070284539/de_train") false;
              Subscribed (str "3070284539") false], 0%Z)
  /\ snd second = 0%Z
  /\ hd_error (outcomes (snd (fst second))) = Some MapAlreadyPresent
  /\ ~ In MapInserted (outcomes (snd (fst second)))
  /\ fst (fst second) gm_path = fs1 gm_path
  /\ fst (fst second) (backup_path gm_path) = fs1 (backup_path gm_path).
Proof.
  intros args fs fs1 second.
  split; [reflexivity|]. split; [reflexivity|]. split; [reflexivity|].
  apply (@add_map_idempotent args fs); reflexivity.
Defined.

(** C2 as stated fails for keys that an entry line cannot hold as they are.
    With a double quote in the map name, the key read back from the new line
    stops at that quote; with a closing brace, the new line closes the maps
    block before itself; with a line feed, the new line is read back as two
    lines.  In each case the second run does not find the key, inserts it
    once more and changes the primary file again. *)
Lemma add_map_not_idempotent :
  let fs := fs_of (Some (join doc_dust2)) None in
  let run m fs := main {| group_name := str "mg_active"; map_name := m;
                          workshop_id := None; custom := false; dry_run := false;
                          position := str "end" |} fs in
  let twice m := run m (fst (fst (run m fs))) in
  let grows m := fst (fst (twice m)) gm_path <> fst (fst (run m fs)) gm_path in
  (snd (run (str "de_" ++ [DQUOTE] ++ str "x") fs) = 0%Z
   /\ outcomes (snd (fst (twice (str "de_" ++ [DQUOTE] ++ str "x")))) = [MapInserted]
   /\ grows (str "de_" ++ [DQUOTE] ++ str "x"))
  /\ (snd (run (str "de_" ++ [RBRACE]) fs) = 0%Z
      /\ outcomes (snd (fst (twice (str "de_" ++ [RBRACE])))) = [MapInserted]
      /\ grows (str "de_" ++ [RBRACE]))
  /\ (snd (run (str "de_" ++ [LF] ++ str "x") fs) = 0%Z
      /\ outcomes (snd (fst (twice (str "de_" ++ [LF] ++ str "x")))) = [MapInserted]
      /\ grows (str "de_" ++ [LF] ++ str "x")).
Proof.
  repeat split; try reflexivity;
    intros H; apply (f_equal (option_map (@length char))) in H;
    vm_compute in H; discriminate H.
Qed.

(** * Further properties of the script *)

(** ** The span returned by the locator *)

(** X1.  The Block Span invariant of [find_group_and_maps_block]: on
    success the group header line comes before the first line inside the
    maps block, which is not after the closing-brace line, which is a line
    of the document; the line before the block's content holds an opening
    brace, the line at the end holds a closing brace, and the indentation
    token is the one inferred for that span. *)
Theorem block_span_invariant (lines : list text) (g : text) (gs s e : nat)
    (indent : text) :
  find_group_and_maps_block lines g = Ok (gs, s, e, indent) ->
  gs < s /\ s <= e < length lines
  /\ contains LBRACE (nth (s - 1) lines []) = true
  /\ contains RBRACE (nth e lines []) = true
  /\ indent = infer_maps_indent lines s e.
Proof.
  intros H. apply find_group_and_maps_block_bounds in H.
  destruct H as (H1 & H2 & H3 & H4 & H5).
  repeat split; try lia; try assumption.
  destruct (contains RBRACE (nth e lines [])) eqn:E; [reflexivity|].
  apply contains_false_count in E. lia.
Qed.

Lemma block_span_invariant_witness :
  find_group_and_maps_block doc_comment (str "mg_active") = Ok (2, 6, 9, [TAB])
  /\ 2 < 6 /\ 6 <= 9 < length doc_comment
  /\ contains LBRACE (nth (6 - 1) doc_comment []) = true
  /\ contains RBRACE (nth 9 doc_comment []) = true
  /\ [TAB] = infer_maps_indent doc_comment 6 9.
Proof.
  split; [reflexivity|].
  apply (@block_span_invariant doc_comment (str "mg_active") 2 6 9 [TAB]).
  reflexivity.
Defined.

Lemma find_group_header_first (g : text) (rest : list text) (i : nat) (d : Z) (k : nat) :
  find_group_header g rest i d = Some k ->
  forall n, n < k - i -> startswith (quoted g) (strip (nth n rest [])) = false.
Proof.
  revert i d; induction rest as [|line rest IH]; intros i d;
    cbn [find_group_header]; [discriminate|].
  destruct (d >? 0)%Z; [|discriminate].
  destruct (startswith (quoted g) (strip line)) eqn:E.
  - intros H. injection H as <-. intros n Hn. lia.
  - intros H n Hn. pose proof (find_group_header_bounds _ _ _ _ H) as [Hb _].
    destruct n as [|n]; [exact E|]. cbn [nth]. apply (IH _ _ H). lia.
Qed.

Lemma find_group_header_depth (g : text) (rest : list text) (i : nat) (d : Z) (k : nat) :
  find_group_header g rest i d = Some k ->
  forall n, n <= k - i -> (0 < depth_after d (firstn n rest))%Z.
Proof.
  unfold depth_after.
  revert i d; induction rest as [|line rest IH]; intros i d;
    cbn [find_group_header]; [discriminate|].
  destruct (d >? 0)%Z eqn:Ed; [|discriminate]. apply Z.gtb_lt in Ed.
  destruct (startswith (quoted g) (strip line)).
  - intros H. injection H as <-. intros n Hn.
    replace n with 0 by lia. cbn [firstn fold_left]. lia.
  - intros H n Hn. pose proof (find_group_header_bounds _ _ _ _ H) as [Hb _].
    destruct n as [|n]; [cbn [firstn fold_left]; lia|].
    cbn [firstn fold_left]. rewrite <- walk_braces_eq. apply (IH _ _ H). lia.
Qed.

(** X2.  The group header is the first match inside the section.  On
    success, with [i0] the first mapgroups header line of the document and
    [i1] the first line behind it that holds an opening brace, the group
    header line returned is the first line behind [i1] whose trimmed content
    starts with the quoted group name, and the brace depth, counted from 1
    behind line [i1], is positive before every line from there up to and
    including the group header. *)
Theorem group_header_is_first_match (lines : list text) (g : text) (gs s e : nat)
    (indent : text) :
  find_group_and_maps_block lines g = Ok (gs, s, e, indent) ->
  exists i0 i1,
    is_mapgroups_header (nth i0 lines []) = true
    /\ (forall i, i < i0 -> is_mapgroups_header (nth i lines []) = false)
    /\ i0 < i1
    /\ has_lbrace (nth i1 lines []) = true
    /\ (forall i, i0 < i < i1 -> has_lbrace (nth i lines []) = false)
    /\ i1 < gs
    /\ starts_with_group g (nth gs lines []) = true
    /\ (forall i, i1 < i < gs -> starts_with_group g (nth i lines []) = false)
    /\ (forall i, i1 < i <= gs -> (0 < depth_after 1 (slice lines (i1 + 1) i))%Z).
Proof.
  unfold find_group_and_maps_block, starts_with_group. intros H.
  destruct (scan_until is_mapgroups_header lines 0) as [i0|] eqn:E0; [|discriminate].
  destruct (scan_until has_lbrace (skipn (i0 + 1) lines) (i0 + 1)) as [i1|] eqn:E1;
    [|discriminate].
  destruct (find_group_header g (skipn (i1 + 1) lines) (i1 + 1) 1) as [gs0|] eqn:E2;
    [|discriminate].
  destruct (scan_until has_lbrace (skipn gs0 lines) gs0) as [j|] eqn:E3;
    [|discriminate].
  apply scan_until_spec in E3 as (Hj & _). rewrite length_skipn in Hj.
  apply find_maps_block_bounds in H; [|reflexivity|lia].
  destruct H as (-> & _).
  pose proof (find_group_header_first _ _ _ _ E2) as Hfirst.
  pose proof (find_group_header_depth _ _ _ _ E2) as Hdepth.
  apply find_group_header_bounds in E2 as (B2 & S2).
  apply scan_until_spec in E1 as (B1 & P1 & N1).
  apply scan_until_spec in E0 as (B0 & P0 & N0).
  rewrite nth_skipn_shift in S2, P1. rewrite Nat.sub_0_r in P0, N0.
  replace (i1 + 1 + (gs0 - (i1 + 1))) with gs0 in S2 by lia.
  replace (i0 + 1 + (i1 - (i0 + 1))) with i1 in P1 by lia.
  exists i0, i1.
  split; [exact P0|]. split; [exact N0|]. split; [lia|]. split; [exact P1|].
  split; [|split; [lia|split; [exact S2|split]]].
  - intros i Hi. specialize (N1 (i - (i0 + 1)) ltac:(lia)).
    rewrite nth_skipn_shift in N1.
    now replace (i0 + 1 + (i - (i0 + 1))) with i in N1 by lia.
  - intros i Hi. specialize (Hfirst (i - (i1 + 1)) ltac:(lia)).
    rewrite nth_skipn_shift in Hfirst.
    now replace (i1 + 1 + (i - (i1 + 1))) with i in Hfirst by lia.
  - intros i Hi. unfold slice. apply Hdepth. lia.
Qed.

Lemma group_header_is_first_match_witness :
  find_group_and_maps_block doc_dust2 (str "mg_active") = Ok (2, 6, 7, repeat TAB 3)
  /\ exists i0 i1,
       is_mapgroups_header (nth i0 doc_dust2 []) = true
       /\ (forall i, i < i0 -> is_mapgroups_header (nth i doc_dust2 []) = false)
       /\ i0 < i1
       /\ has_lbrace (nth i1 doc_dust2 []) = true
       /\ (forall i, i0 < i < i1 -> has_lbrace (nth i doc_dust2 []) = false)
       /\ i1 < 2
       /\ starts_with_group (str "mg_active") (nth 2 doc_dust2 []) = true
       /\ (forall i, i1 < i < 2 ->
             starts_with_group (str "mg_active") (nth i doc_dust2 []) = false)
       /\ (forall i, i1 < i <= 2 ->
             (0 < depth_after 1 (slice doc_dust2 (i1 + 1) i))%Z).
Proof.
  split; [reflexivity|].
  apply (@group_header_is_first_match doc_dust2 (str "mg_active") 2 6 7 (repeat TAB 3)).
  reflexivity.
Defined.

Lemma find_maps_end_depth (rest : list text) (m : nat) (d : Z) (e : nat) :
  find_maps_end rest m d = Some e ->
  depth_after d (firstn (S (e - m)) rest) = 0%Z
  /\ forall n, n < e - m -> (0 < depth_after d (firstn (S n) rest))%Z.
Proof.
  unfold depth_after.
  revert m d; induction rest as [|line rest IH]; intros m d;
    cbn [find_maps_end]; [discriminate|].
  destruct (d >? 0)%Z; [|discriminate]. cbv zeta.
  destruct (_ =? 0)%Z eqn:E0.
  - intros H. injection H as <-. rewrite Nat.sub_diag. cbn [firstn fold_left].
    apply Z.eqb_eq in E0. split; [exact E0|]. intros n Hn. lia.
  - intros H. pose proof (find_maps_end_positive _ _ _ H) as Hpos.
    pose proof (find_maps_end_bounds _ _ _ H) as [Hb _].
    destruct (IH _ _ H) as [H1 H2].
    replace (e - m) with (S (e - S m)) by lia. split.
    + cbn [firstn fold_left]. exact H1.
    + intros [|n] Hn.
      * cbn [firstn fold_left]. apply Z.gtb_lt in Hpos. lia.
      * cbn [firstn fold_left]. apply H2. lia.
Qed.

(** X3.  The braces of a located maps block are balanced: counting from
    depth 1 behind the opening brace, the depth after the closing-brace line
    is zero, and after every earlier line of the block it is positive, so
    the end of the span is the first line on which the block closes. *)
Theorem maps_block_balanced (lines : list text) (g : text) (gs s e : nat)
    (indent : text) :
  find_group_and_maps_block lines g = Ok (gs, s, e, indent) ->
  depth_after 1 (slice lines s (S e)) = 0%Z
  /\ forall k, s <= k < e -> (0 < depth_after 1 (slice lines s (S k)))%Z.
Proof.
  intros H. pose proof (find_group_and_maps_block_bounds _ _ H) as (_ & Hse & _).
  apply find_group_and_maps_block_ok in H as (_ & H & _).
  apply find_maps_end_depth in H as [H1 H2]. unfold slice. split.
  - replace (S e - s) with (S (e - s)) by lia. exact H1.
  - intros k Hk. replace (S k - s) with (S (k - s)) by lia. apply H2. lia.
Qed.

Lemma maps_block_balanced_witness :
  find_group_and_maps_block doc_comment (str "mg_active") = Ok (2, 6, 9, [TAB])
  /\ depth_after 1 (slice doc_comment 6 10) = 0%Z
  /\ forall k, 6 <= k < 9 -> (0 < depth_after 1 (slice doc_comment 6 (S k)))%Z.
Proof.
  split; [reflexivity|].
  apply (@maps_block_balanced doc_comment (str "mg_active") 2 6 9 [TAB]).
  reflexivity.
Defined.

Lemma find_maps_end_prefix (P X Y : list text) (m : nat) (d : Z) (e : nat) :
  find_maps_end (P ++ X) m d = Some e -> e < m + length P ->
  find_maps_end (P ++ Y) m d = Some e.
Proof.
  revert m d; induction P as [|line P IH]; intros m d H He.
  - apply find_maps_end_bounds in H. cbn [length] in He. lia.
  - cbn [app find_maps_end length] in *. destruct (d >? 0)%Z; [|discriminate].
    cbv zeta in *. destruct (_ =? 0)%Z; [assumption|]. apply IH; [assumption|lia].
Qed.

Lemma infer_maps_indent_loop_ext (L1 L2 : list text) (idxs : list nat) :
  (forall i, In i idxs -> nth i L1 [] = nth i L2 []) ->
  infer_maps_indent_loop L1 idxs = infer_maps_indent_loop L2 idxs.
Proof.
  induction idxs as [|i idxs IH]; intros H; [reflexivity|].
  cbn [infer_maps_indent_loop]. rewrite (H i) by now left.
  rewrite IH; [reflexivity|]. intros j Hj. apply H. now right.
Qed.

(** X4.  The locator reads nothing behind the closing-brace line of the
    maps block: two documents with the same lines up to and including that
    line give the same span and the same indentation token. *)
Theorem locator_ignores_what_follows (P X Y : list text) (g : text) (gs s e : nat)
    (indent : text) :
  find_group_and_maps_block (P ++ X) g = Ok (gs, s, e, indent) ->
  e < length P ->
  find_group_and_maps_block (P ++ Y) g = Ok (gs, s, e, indent).
Proof.
  intros H He.
  pose proof (find_group_and_maps_block_bounds _ _ H) as (_ & Hse & _).
  apply find_group_and_maps_block_ok in H as (H1 & H2 & H3).
  apply find_group_and_maps_block_ok. split; [|split].
  - apply (maps_block_start_prefix _ _ Y _ H1). lia.
  - rewrite skipn_app_prefix in * by lia.
    apply (find_maps_end_prefix _ _ Y _ _ H2). rewrite length_skipn. lia.
  - rewrite H3. unfold infer_maps_indent. apply infer_maps_indent_loop_ext.
    intros i Hi. apply in_seq in Hi. rewrite !app_nth1 by lia. reflexivity.
Qed.

Lemma locator_ignores_what_follows_witness :
  let P := firstn 8 doc_dust2 in
  find_group_and_maps_block (P ++ skipn 8 doc_dust2) (str "mg_active")
    = Ok (2, 6, 7, repeat TAB 3)
  /\ 7 < length P
  /\ find_group_and_maps_block (P ++ [str "anything {{{ at all"]) (str "mg_active")
     = Ok (2, 6, 7, repeat TAB 3).
Proof.
  intros P. split; [reflexivity|]. split; [vm_compute; lia|].
  apply (@locator_ignores_what_follows P (skipn 8 doc_dust2)
           [str "anything {{{ at all"] (str "mg_active") 2 6 7 (repeat TAB 3)).
  - reflexivity.
  - vm_compute. lia.
Defined.

(** X5.  Lines that hold as many opening as closing braces, put anywhere
    between the first line inside a located maps block and its closing-brace
    line, leave the group header line and the start of the block where they
    were and move the end of the block by their number. *)
Theorem locator_stable_under_neutral_lines (A N B : list text) (g : text)
    (gs s e : nat) (indent : text) :
  find_group_and_maps_block (A ++ B) g = Ok (gs, s, e, indent) ->
  s <= length A <= e -> forallb neutral N = true ->
  find_group_and_maps_block (A ++ N ++ B) g
  = Ok (gs, s, e + length N, infer_maps_indent (A ++ N ++ B) s (e + length N)).
Proof. intros H Hlen HN. exact (@locate_after_insert A N B g gs s e indent H Hlen HN). Qed.

Lemma locator_stable_under_neutral_lines_witness :
  let A := firstn 7 doc_dust2 in
  let B := skipn 7 doc_dust2 in
  let N := [ln 3 (entry (str "de_{a}")); ln 3 (str "// note")] in
  find_group_and_maps_block (A ++ B) (str "mg_active") = Ok (2, 6, 7, repeat TAB 3)
  /\ 6 <= length A <= 7
  /\ forallb neutral N = true
  /\ find_group_and_maps_block (A ++ N ++ B) (str "mg_active")
     = Ok (2, 6, 7 + length N, infer_maps_indent (A ++ N ++ B) 6 (7 + length N)).
Proof.
  intros A B N. split; [reflexivity|]. split; [vm_compute; lia|].
  split; [reflexivity|].
  apply (@locator_stable_under_neutral_lines A N B (str "mg_active") 2 6 7
           (repeat TAB 3)).
  - reflexivity.
  - vm_compute. lia.
  - reflexivity.
Defined.

(** ** The errors of the locator *)

(** X6.  The locator fails with the error for a missing mapgroups section
    exactly when no line of the document, trimmed on the left, starts with
    the quoted word mapgroups. *)
Theorem no_mapgroups_error_iff (lines : list text) (g : text) :
  find_group_and_maps_block lines g = Error NoMapgroups
  <-> existsb is_mapgroups_header lines = false.
Proof.
  unfold find_group_and_maps_block.
  destruct (scan_until is_mapgroups_header lines 0) as [i0|] eqn:E0.
  - assert (Hex : existsb is_mapgroups_header lines = true).
    { apply scan_until_spec in E0 as (Hb & Hp & _). rewrite Nat.sub_0_r in Hp.
      apply existsb_exists. exists (nth i0 lines []). split; [|exact Hp].
      apply nth_In. cbn [length] in Hb. lia. }
    rewrite Hex. split; [|discriminate]. intros H. exfalso.
    destruct (scan_until has_lbrace (skipn (i0 + 1) lines) (i0 + 1)); [|discriminate].
    destruct (find_group_header g _ _ _); [|discriminate].
    destruct (scan_until has_lbrace (skipn n0 lines) n0); [|discriminate].
    apply find_maps_block_error in H as [H|H]; discriminate.
  - split; [|reflexivity]. intros _.
    destruct (existsb is_mapgroups_header lines) eqn:Hex; [|reflexivity].
    apply existsb_exists in Hex as (l & Hl & Hp).
    rewrite (proj1 (scan_until_none is_mapgroups_header lines 0) E0 l Hl) in Hp.
    discriminate.
Qed.

(** X7.  Whatever the document, an error of the locator is one of its six
    own, never the missing-file error, and the four that name a group name
    the group that was asked for. *)
Theorem locator_errors (lines : list text) (g : text) (err : AddMapError) :
  find_group_and_maps_block lines g = Error err ->
  err = NoMapgroups \/ err = MalformedMapgroups \/ err = GroupNotFound g
  \/ err = MalformedGroup g \/ err = NoMapsBlock g \/ err = MalformedMaps g.
Proof.
  unfold find_group_and_maps_block. intros H.
  destruct (scan_until is_mapgroups_header lines 0) as [i0|];
    [|injection H as <-; tauto].
  destruct (scan_until has_lbrace (skipn (i0 + 1) lines) (i0 + 1)) as [i1|];
    [|injection H as <-; tauto].
  destruct (find_group_header g _ _ _) as [gs|]; [|injection H as <-; tauto].
  destruct (scan_until has_lbrace (skipn gs lines) gs) as [j|];
    [|injection H as <-; tauto].
  apply find_maps_block_error in H as [->| ->]; tauto.
Qed.

Lemma locator_errors_witness :
  let err := NoMapsBlock (str "mg_active") in
  let doc := firstn 4 doc_dust2 ++ skipn 7 doc_dust2 in
  find_group_and_maps_block doc (str "mg_active") = Error err
  /\ (err = NoMapgroups \/ err = MalformedMapgroups
      \/ err = GroupNotFound (str "mg_active")
      \/ err = MalformedGroup (str "mg_active")
      \/ err = NoMapsBlock (str "mg_active")
      \/ err = MalformedMaps (str "mg_active")).
Proof.
  intros err doc. split; [reflexivity|].
  apply (@locator_errors doc (str "mg_active") err). reflexivity.
Defined.

(** ** Reading and writing the lines of a file *)

(** X8.  Joining the lines of [splitlines(keepends=True)] gives the text
    back, whatever line boundaries it holds: [write_lines] loses nothing of
    what [read_lines] split. *)
Theorem splitlines_join_round_trip (t : text) : join (splitlines true t) = t.
Proof. apply (@join_splitlines_acc_le (length t)). lia. Qed.

(** X9.  The lines that [read_lines] returns for a file: joined, they are
    the content of the file with every carriage-return line ending turned
    into a line feed; they hold no carriage return; each is a complete line,
    with one line boundary at its end and none before, except the last, which
    may lack its terminator but is not empty; and writing them back with
    [write_lines] stores that translated content. *)
Theorem read_lines_shape (fs : FS) (path : string) (lines : list text) :
  read_lines fs path = Ok lines ->
  exists t,
    fs path = Some t
    /\ join lines = universal_newlines t
    /\ no_cr (join lines) = true
    /\ well_split lines = true
    /\ write_lines fs path lines path = Some (universal_newlines t).
Proof.
  unfold read_lines, read_text. destruct (fs path) as [t|]; [|discriminate].
  cbn [option_map]. intros H. injection H as <-. exists t.
  pose proof (universal_newlines_is_no_cr t) as Hcr.
  rewrite join_splitlines.
  split; [reflexivity|]. split; [reflexivity|]. split; [exact Hcr|].
  split; [now apply well_split_splitlines|].
  unfold write_lines, write_text, fs_write.
  now rewrite String.eqb_refl, join_splitlines.
Qed.

Lemma read_lines_shape_witness :
  let fs := fs_of (Some (str "a" ++ [CR; LF] ++ str "b" ++ [CR] ++ str "c")) None in
  let lines := [str "a" ++ [LF]; str "b" ++ [LF]; str "c"] in
  read_lines fs gm_path = Ok lines
  /\ exists t,
       fs gm_path = Some t
       /\ join lines = universal_newlines t
       /\ no_cr (join lines) = true
       /\ well_split lines = true
       /\ write_lines fs gm_path lines gm_path = Some (universal_newlines t).
Proof.
  intros fs lines. split; [reflexivity|].
  apply (@read_lines_shape fs gm_path lines). reflexivity.
Defined.

(** X10.  Lines written with [write_lines] are the lines [read_lines]
    returns afterwards, when they hold no carriage return and each but the
    last is a complete line. *)
Theorem write_then_read_lines (fs : FS) (path : string) (lines : list text) :
  well_split lines = true -> no_cr (join lines) = true ->
  read_lines (write_lines fs path lines) path = Ok lines.
Proof.
  intros Hws Hcr. unfold read_lines, read_text, write_lines, write_text, fs_write.
  rewrite String.eqb_refl. cbn [option_map].
  rewrite universal_newlines_no_cr by assumption.
  now rewrite splitlines_well_split.
Qed.

Lemma write_then_read_lines_witness :
  well_split doc_dust2 = true
  /\ no_cr (join doc_dust2) = true
  /\ read_lines (write_lines (fs_of None None) gm_path doc_dust2) gm_path
     = Ok doc_dust2.
Proof.
  split; [reflexivity|]. split; [reflexivity|].
  apply (@write_then_read_lines (fs_of None None) gm_path doc_dust2); reflexivity.
Defined.

(** ** The entry editor *)

(** X11.  What [infer_maps_indent] computes: the leading whitespace of the
    first line, from [start_idx] up to but not including [end_idx], that
    holds a tab or whose trimmed content starts with a double quote; four
    tabs when there is no such line.  The token is whitespace throughout. *)
Theorem infer_maps_indent_exact (lines : list text) (s e : nat) :
  infer_maps_indent lines s e
  = match find (fun i => contains TAB (nth i lines []) || starts_quoted (nth i lines []))
            (seq s (e - s)) with
    | Some i => leading_ws (nth i lines [])
    | None => repeat TAB 4
    end
  /\ forallb is_space (infer_maps_indent lines s e) = true.
Proof.
  split; [apply infer_maps_indent_loop_exact|apply infer_maps_indent_space].
Qed.

(** X12.  The line that [insert_map] builds with an inferred indentation
    token is read back by [current_maps_in_block] as an entry, and as the
    entry of its key when the key holds no double quote. *)
Theorem new_entry_line_read_back (lines : list text) (s e : nat) (key : text) :
  contains DQUOTE key = false ->
  let line := new_entry_line (infer_maps_indent lines s e) key in
  starts_quoted line = true
  /\ current_maps_in_block [line] 0 1 = [key].
Proof.
  intros Hkey line.
  destruct (entry_line_key (infer_maps_indent lines s e) key
              (infer_maps_indent_space lines s e) Hkey) as [H1 H2].
  fold (new_entry_line (infer_maps_indent lines s e) key) in H1, H2. fold line in H1, H2.
  split; [exact H1|].
  unfold current_maps_in_block. cbn [seq Nat.sub current_maps_loop nth].
  unfold starts_quoted in H1. rewrite H1, (startswith_contains _ _ H1), H2.
  reflexivity.
Qed.

Lemma new_entry_line_read_back_witness :
  contains DQUOTE (str "workshop/12345/de_dust2") = false
  /\ let line := new_entry_line (infer_maps_indent doc_comment 6 9)
                   (str "workshop/12345/de_dust2") in
     starts_quoted line = true
     /\ current_maps_in_block [line] 0 1 = [str "workshop/12345/de_dust2"].
Proof.
  split; [reflexivity|].
  apply (@new_entry_line_read_back doc_comment 6 9 (str "workshop/12345/de_dust2")).
  reflexivity.
Defined.

Lemma contains_rev (c : char) (s : text) : contains c (rev s) = contains c s.
Proof.
  unfold contains. destruct (existsb (N.eqb c) s) eqn:E.
  - apply existsb_exists in E as (x & Hx & Ex). apply existsb_exists.
    exists x. split; [now apply -> in_rev|exact Ex].
  - destruct (existsb (N.eqb c) (rev s)) eqn:E2; [|reflexivity].
    apply existsb_exists in E2 as (x & Hx & Ex). apply in_rev in Hx.
    assert (existsb (N.eqb c) s = true) by (apply existsb_exists; now exists x).
    congruence.
Qed.

Lemma split_acc_pieces (sep : char) (s cur piece : text) :
  contains sep cur = false -> In piece (split_acc sep cur s) ->
  contains sep piece = false.
Proof.
  revert cur; induction s as [|c s IH]; intros cur Hcur Hin.
  - cbn [split_acc In] in Hin. destruct Hin as [<-|[]].
    rewrite contains_rev. exact Hcur.
  - cbn [split_acc] in Hin. destruct (N.eqb c sep) eqn:E.
    + destruct Hin as [<-|Hin]; [rewrite contains_rev; exact Hcur|].
      now apply (IH []).
    + apply (IH (c :: cur)); [|assumption]. unfold contains in *. cbn [existsb].
      rewrite N.eqb_sym, E. exact Hcur.
Qed.

Lemma current_maps_loop_no_quote (lines : list text) (idxs : list nat) (key : text) :
  In key (current_maps_loop lines idxs) -> contains DQUOTE key = false.
Proof.
  induction idxs as [|i idxs IH]; cbn [current_maps_loop]; [intros []|].
  destruct (_ && _); [|exact IH]. intros [<-|Hin]; [|now apply IH].
  destruct (nth_in_or_default 1 (split DQUOTE (strip (nth i lines []))) [])
    as [Hin| ->]; [|reflexivity].
  now apply (@split_acc_pieces DQUOTE (strip (nth i lines [])) []).
Qed.

(** X13.  No key that [current_maps_in_block] extracts holds a double
    quote: a key is what lies between the first two quotes of a line. *)
Theorem current_maps_hold_no_quote (lines : list text) (s e : nat) :
  forallb (fun key => negb (contains DQUOTE key)) (current_maps_in_block lines s e) = true.
Proof.
  apply forallb_forall. intros key Hin. apply negb_true_iff.
  now apply (@current_maps_loop_no_quote lines (seq s (e - s))).
Qed.



Lemma current_maps_loop_app (lines : list text) (a b : list nat) :
  current_maps_loop lines (a ++ b)
  = current_maps_loop lines a ++ current_maps_loop lines b.
Proof.
  induction a as [|i a IH]; [reflexivity|]. cbn [app current_maps_loop].
  destruct (_ && _); [cbn [app]; f_equal|]; exact IH.
Qed.

Lemma current_maps_loop_ext (L1 L2 : list text) (f : nat -> nat) (idxs : list nat) :
  (forall i, In i idxs -> nth i L1 [] = nth (f i) L2 []) ->
  current_maps_loop L1 idxs = current_maps_loop L2 (map f idxs).
Proof.
  induction idxs as [|i idxs IH]; intros H; [reflexivity|].
  cbn [map current_maps_loop]. rewrite <- (H i) by now left.
  rewrite IH; [reflexivity|]. intros j Hj. apply H. now right.
Qed.

Lemma current_maps_loop_entry (lines : list text) (i : nat) (ws key : text) :
  forallb is_space ws = true -> contains DQUOTE key = false ->
  nth i lines [] = new_entry_line ws key ->
  current_maps_loop lines [i] = [key].
Proof.
  intros Hws Hkey Hnth. destruct (entry_line_key ws key Hws Hkey) as [H1 H2].
  fold (new_entry_line ws key) in H1, H2. unfold starts_quoted in H1.
  cbn [current_maps_loop]. rewrite Hnth, H1, (startswith_contains _ _ H1), H2.
  reflexivity.
Qed.

(** X15.  Insert, then look up.  In the document that [insert_map] returns
    for a located block and a key without double quote, the keys of the
    block, now one line longer, are the key followed by the keys that were
    there for position [start], and the keys that were there followed by the
    key for position [end]: the order of the old entries is kept. *)
Theorem insert_map_then_current_maps (lines : list text) (g : text) (gs s e : nat)
    (indent key : text) :
  find_group_and_maps_block lines g = Ok (gs, s, e, indent) ->
  contains DQUOTE key = false ->
  let old := current_maps_in_block lines s e in
  current_maps_in_block (insert_map lines s e indent key (str "start")) s (S e)
  = key :: old
  /\ current_maps_in_block (insert_map lines s e indent key (str "end")) s (S e)
     = old ++ [key].
Proof.
  intros H Hkey old. subst old.
  apply find_group_and_maps_block_bounds in H as (_ & Hse & Hind & _).
  assert (Hws : forallb is_space indent = true)
    by (rewrite Hind; apply infer_maps_indent_space).
  unfold current_maps_in_block. replace (S e - s) with (S (e - s)) by lia. split.
  - rewrite insert_map_start. set (L' := list_insert s _ lines).
    cbn [seq]. change (s :: seq (S s) (e - s)) with ([s] ++ seq (S s) (e - s)).
    rewrite current_maps_loop_app.
    rewrite (@current_maps_loop_entry L' s indent key Hws Hkey)
      by (apply nth_list_insert_at; lia).
    cbn [app]. f_equal. rewrite <- seq_shift. symmetry.
    apply current_maps_loop_ext. intros i Hi. apply in_seq in Hi.
    symmetry. apply nth_list_insert_after; lia.
  - rewrite insert_map_other by discriminate. set (L' := list_insert e _ lines).
    rewrite seq_S, current_maps_loop_app. replace (s + (e - s)) with e by lia.
    rewrite (@current_maps_loop_entry L' e indent key Hws Hkey)
      by (apply nth_list_insert_at; lia).
    f_equal.
    transitivity (current_maps_loop lines (map (fun i => i) (seq s (e - s))));
      [|now rewrite map_id].
    apply current_maps_loop_ext. intros i Hi. apply in_seq in Hi.
    apply nth_list_insert_before; lia.
Qed.

Lemma insert_map_then_current_maps_witness :
  find_group_and_maps_block doc_workshop (str "mg_active") = Ok (2, 6, 7, repeat TAB 3)
  /\ contains DQUOTE (str "de_train") = false
  /\ current_maps_in_block
       (insert_map doc_workshop 6 7 (repeat TAB 3) (str "de_train") (str "start")) 6 8
     = [str "de_train"; str "workshop/12345/de_dust2"]
  /\ current_maps_in_block
       (insert_map doc_workshop 6 7 (repeat TAB 3) (str "de_train") (str "end")) 6 8
     = [str "workshop/12345/de_dust2"; str "de_train"].
Proof.
  split; [reflexivity|]. split; [reflexivity|].
  apply (@insert_map_then_current_maps doc_workshop (str "mg_active") 2 6 7
           (repeat TAB 3) (str "de_train")); reflexivity.
Defined.

(** X16.  [format_map_key] keeps workshop ids apart for one map name, and
    map names apart for one workshop id: two keys built with non-empty ids
    for the same map name are equal only for equal ids, and two keys built
    with the same non-empty id are equal only for equal map names. *)
Theorem format_map_key_injective (m1 m2 id1 id2 : text) :
  id1 <> [] -> id2 <> [] ->
  (format_map_key m1 (Some id1) = format_map_key m1 (Some id2) -> id1 = id2)
  /\ (format_map_key m1 (Some id1) = format_map_key m2 (Some id1) -> m1 = m2).
Proof.
  intros H1 H2. rewrite !format_map_key_workshop by assumption. split; intros E.
  - apply app_inv_head in E. now apply app_inv_tail in E.
  - apply app_inv_head in E. apply app_inv_head in E. now apply app_inv_head in E.
Qed.

Lemma format_map_key_injective_witness :
  str "12345" <> [] /\ str "3070284539" <> []
  /\ (format_map_key (str "de_dust2") (Some (str "12345"))
      = format_map_key (str "de_dust2") (Some (str "3070284539"))
      -> str "12345" = str "3070284539")
  /\ (format_map_key (str "de_dust2") (Some (str "12345"))
      = format_map_key (str "de_train") (Some (str "12345"))
      -> str "de_dust2" = str "de_train").
Proof.
  split; [discriminate|]. split; [discriminate|].
  apply (@format_map_key_injective (str "de_dust2") (str "de_train") (str "12345")
           (str "3070284539")); discriminate.
Defined.

(** ** The list appender *)

(** X17.  [add_workshop_id] touches the list file only: every other file
    is left as it was and no file disappears; a dry run returns the file
    system it was given and the answer the real run gives; and an answer of
    [False] (the token is already there) means nothing was written. *)
Theorem add_workshop_id_footprint (fs : FS) (p : string) (tok : text) (dry : bool) :
  (forall q, String.eqb q p = false -> fst (add_workshop_id fs p tok dry) q = fs q)
  /\ (forall q, exists_file fs q = true ->
        exists_file (fst (add_workshop_id fs p tok dry)) q = true)
  /\ fst (add_workshop_id fs p tok true) = fs
  /\ snd (add_workshop_id fs p tok true) = snd (add_workshop_id fs p tok false)
  /\ (snd (add_workshop_id fs p tok dry) = false -> fst (add_workshop_id fs p tok dry) = fs).
Proof.
  split; [intros q; apply add_workshop_id_other|].
  split; [intros q; apply add_workshop_id_keeps|].
  rewrite !add_workshop_id_eq.
  destruct (is_subscribed fs p tok), dry; cbn [fst snd];
    repeat split; try reflexivity; discriminate.
Qed.

Lemma existing_ids_append (old tok : text) :
  plain_token tok = true -> terminated old = true ->
  existing_ids (universal_newlines (old ++ tok ++ [LF]))
  = existing_ids (universal_newlines old) ++ [tok].
Proof.
  intros Htok Hold. apply plain_token_inv in Htok as (Hne & Hstrip & Hlb).
  pose proof (no_linebreak_head [LF] Hlb Hne) as Hhead.
  rewrite (@universal_newlines_app_le (length old)) by (lia || assumption).
  rewrite (universal_newlines_no_cr (tok ++ [LF]))
    by (rewrite no_cr_app, (no_linebreak_no_cr _ Hlb); reflexivity).
  unfold existing_ids. rewrite splitlines_app.
  - rewrite splitlines_one_line by (assumption || reflexivity).
    rewrite filter_app, map_app. f_equal. cbn [filter]. rewrite Hstrip.
    destruct tok; [congruence|]. cbn [map]. now rewrite Hstrip.
  - now apply universal_newlines_terminated.
  - destruct (rev (universal_newlines old)); [exact I|].
    now apply crlf_split_head.
Qed.

(** X18.  When [add_workshop_id] appends a plain token (not empty, no
    whitespace at either end, no line boundary inside) to a list file that
    was absent, empty or ended with a line boundary, the members of the list
    afterwards are the members before, in their order, followed by the
    token: no member is lost or altered. *)
Theorem add_workshop_id_members (fs : FS) (p : string) (tok : text) :
  plain_token tok = true -> terminated (opt_text (fs p)) = true ->
  snd (add_workshop_id fs p tok false) = true ->
  existing_ids (universal_newlines (opt_text (fst (add_workshop_id fs p tok false) p)))
  = existing_ids (universal_newlines (opt_text (fs p))) ++ [tok].
Proof.
  intros Htok Hold. rewrite add_workshop_id_eq.
  destruct (is_subscribed fs p tok); cbn [fst snd]; [discriminate|]. intros _.
  unfold fs_write. rewrite String.eqb_refl. cbn [opt_text].
  now apply existing_ids_append.
Qed.

Lemma add_workshop_id_members_witness :
  let fs := fs_of None (Some (str "111" ++ [CR; LF] ++ str " 222 " ++ [LF])) in
  let tok := str "3070284539" in
  plain_token tok = true
  /\ terminated (opt_text (fs sub_path)) = true
  /\ snd (add_workshop_id fs sub_path tok false) = true
  /\ existing_ids (universal_newlines (opt_text (fs sub_path))) = [str "111"; str "222"]
  /\ existing_ids
       (universal_newlines (opt_text (fst (add_workshop_id fs sub_path tok false) sub_path)))
     = existing_ids (universal_newlines (opt_text (fs sub_path))) ++ [tok].
Proof.
  intros fs tok. split; [reflexivity|]. split; [reflexivity|]. split; [reflexivity|].
  split; [reflexivity|].
  apply (@add_workshop_id_members fs sub_path tok); reflexivity.
Defined.

(** ** Whole runs *)

Lemma string_length_append (a b : string) :
  String.length (a ++ b)%string = String.length a + String.length b.
Proof. induction a as [|c a IH]; cbn; [reflexivity|now rewrite IH]. Qed.

(** A file is not its own backup. *)
Lemma backup_path_neq (path : string) : String.eqb (backup_path path) path = false.
Proof.
  apply String.eqb_neq. intros H. apply (f_equal String.length) in H.
  unfold backup_path in H. rewrite string_length_append in H. cbn in H. lia.
Qed.

(** A successful run, step by step. *)
Lemma add_map_to_group_run (fs fs1 : FS) (gm sub : string) (g m : text)
    (w : option text) (dry : bool) (pos : text) (out : list Msg) :
  add_map_to_group fs gm sub g m w dry pos = Ok (fs1, out) ->
  exists t0 gs s e indent,
    fs gm = Some t0
    /\ find_group_and_maps_block (splitlines true (universal_newlines t0)) g
       = Ok (gs, s, e, indent)
    /\ let lines := splitlines true (universal_newlines t0) in
       let key := format_map_key m w in
       let dup := existsb (text_eqb key) (current_maps_in_block lines s e) in
       let fsA := if dup || dry then fs
                  else write_lines (fst (backup_file fs gm)) gm
                         (insert_map lines s e indent key pos) in
       fs1 = (if truthy w then fst (add_workshop_id fsA sub (opt_text w) dry) else fsA)
       /\ out = (if dup then [SkipMap g key]
                 else (if dry then [] else [Backup (backup_path gm)])
                      ++ [AddedMap g key dry])
                ++ (if truthy w
                    then [if snd (add_workshop_id fsA sub (opt_text w) dry)
                          then Subscribed (opt_text w) dry
                          else SkipWorkshop (opt_text w)]
                    else []).
Proof.
  intros H. rewrite add_map_to_group_eq in H. unfold read_lines, read_text in H.
  destruct (fs gm) as [t0|]; cbn [option_map] in H; [|discriminate].
  destruct (find_group_and_maps_block _ g) as [[[[gs s] e] indent]|] eqn:El;
    [|discriminate].
  cbv zeta in H. exists t0, gs, s, e, indent.
  split; [reflexivity|]. split; [exact El|]. cbv zeta.
  destruct (truthy w); injection H as <- <-; split; try reflexivity.
  now rewrite app_nil_r.
Qed.

(** A run that reports a real insertion. *)
Lemma add_map_to_group_inserted (fs fs1 : FS) (gm sub : string) (g m : text)
    (w : option text) (dry : bool) (pos : text) (out : list Msg) (g' k : text) :
  add_map_to_group fs gm sub g m w dry pos = Ok (fs1, out) ->
  In (AddedMap g' k false) out ->
  exists t0 gs s e indent,
    fs gm = Some t0
    /\ find_group_and_maps_block (splitlines true (universal_newlines t0)) g
       = Ok (gs, s, e, indent)
    /\ dry = false
    /\ In (Backup (backup_path gm)) out
    /\ let fsA := write_lines (fst (backup_file fs gm)) gm
                    (insert_map (splitlines true (universal_newlines t0)) s e indent
                       (format_map_key m w) pos) in
       fs1 = (if truthy w then fst (add_workshop_id fsA sub (opt_text w) false) else fsA).
Proof.
  intros H Hin.
  destruct (add_map_to_group_run _ _ _ _ _ _ _ _ H)
    as (t0 & gs & s & e & indent & Egm & El & Hfs & Hout).
  exists t0, gs, s, e, indent. split; [exact Egm|]. split; [exact El|].
  cbv zeta in Hfs, Hout.
  destruct (existsb _ _), dry, (truthy w); cbn [orb app] in Hfs, Hout;
    try destruct (snd (add_workshop_id _ _ _ _));
    subst out; cbn [In] in Hin;
    repeat (destruct Hin as [Hc|Hin]; [discriminate Hc|]); try contradiction;
    (split; [reflexivity|]); (split; [now left|]); exact Hfs.
Qed.

(** X19.  Every real insertion leaves a backup: when a run reports that it
    added the map and wrote it, it has also reported the backup, and the
    backup file then holds the content that the primary file had before the
    run, character for character. *)
Theorem insertion_leaves_backup (fs fs1 : FS) (gm sub : string) (g m : text)
    (w : option text) (dry : bool) (pos : text) (out : list Msg) (g' k : text) :
  String.eqb (backup_path gm) sub = false ->
  add_map_to_group fs gm sub g m w dry pos = Ok (fs1, out) ->
  In (AddedMap g' k false) out ->
  In (Backup (backup_path gm)) out /\ fs1 (backup_path gm) = fs gm.
Proof.
  intros Hsub H Hin.
  destruct (add_map_to_group_inserted _ _ _ _ _ _ _ _ _ _ H Hin)
    as (t0 & gs & s & e & indent & Egm & El & _ & Hb & Hfs).
  split; [exact Hb|]. cbv zeta in Hfs.
  assert (HA : write_lines (fst (backup_file fs gm)) gm
                 (insert_map (splitlines true (universal_newlines t0)) s e indent
                    (format_map_key m w) pos) (backup_path gm) = fs gm).
  { unfold write_lines, write_text, fs_write, backup_file. cbn [fst].
    now rewrite backup_path_neq, String.eqb_refl. }
  destruct (truthy w); subst fs1; [|exact HA].
  rewrite add_workshop_id_other by assumption. exact HA.
Qed.

Lemma insertion_leaves_backup_witness :
  let fs := fs_of (Some (join doc_dust2)) None in
  let run := add_map_to_group fs gm_path sub_path (str "mg_active") (str "de_train")
               (Some (str "3070284539")) false (str "start") in
  let key := str "workshop/3070284539/de_train" in
  String.eqb (backup_path gm_path) sub_path = false
  /\ (exists fs1,
        run = Ok (fs1, [Backup (backup_path gm_path);
                        AddedMap (str "mg_active") key false;
                        Subscribed (str "3070284539") false])
        /\ fs1 (backup_path gm_path) = fs gm_path).
Proof.
  intros fs run key. split; [reflexivity|].
  destruct run as [[fs1 out]|err] eqn:E; [|discriminate E].
  exists fs1.
  assert (Eout : out = [Backup (backup_path gm_path);
                        AddedMap (str "mg_active") key false;
                        Subscribed (str "3070284539") false]).
  { vm_compute in E. injection E as _ <-. reflexivity. }
  subst out. split; [reflexivity|].
  apply (@insertion_leaves_backup fs fs1 gm_path sub_path (str "mg_active")
           (str "de_train") (Some (str "3070284539")) false (str "start") _
           (str "mg_active") key eq_refl E).
  right. now left.
Defined.

Lemma terminated_join_complete (A : list text) :
  forallb complete_line A = true -> terminated (join A) = true.
Proof.
  induction A as [|l A IH] using rev_ind; [reflexivity|].
  rewrite forallb_app. intros H. apply andb_true_iff in H as [_ Hl].
  cbn [forallb] in Hl. rewrite andb_true_r in Hl.
  apply complete_line_inv in Hl as (body & c & -> & _ & Hc & _).
  rewrite join_app. unfold join at 2. cbn [concat]. rewrite app_nil_r, app_assoc.
  now rewrite terminated_snoc.
Qed.

(** X20.  What a real insertion does to the primary file, as text: the
    content as read (line endings translated) is cut in two at a line
    boundary, and the file afterwards holds the first part, the new entry
    line and the second part; nothing else of the text changes. *)
Theorem insertion_frames_text (fs fs1 : FS) (gm sub : string) (g m : text)
    (w : option text) (dry : bool) (pos : text) (out : list Msg) (g' k : text) :
  String.eqb gm sub = false ->
  add_map_to_group fs gm sub g m w dry pos = Ok (fs1, out) ->
  In (AddedMap g' k false) out ->
  exists t0 P Q indent,
    fs gm = Some t0
    /\ universal_newlines t0 = P ++ Q
    /\ terminated P = true
    /\ forallb is_space indent = true
    /\ fs1 gm = Some (P ++ new_entry_line indent (format_map_key m w) ++ Q).
Proof.
  intros Hsub H Hin.
  destruct (add_map_to_group_inserted _ _ _ _ _ _ _ _ _ _ H Hin)
    as (t0 & gs & s & e & indent & Egm & El & _ & _ & Hfs).
  cbv zeta in Hfs. set (lines := splitlines true (universal_newlines t0)) in *.
  pose proof (find_group_and_maps_block_bounds _ _ El) as (_ & Hse & Hind & _).
  set (idx := if text_eqb pos (str "start") then s else e).
  assert (Hidx : s <= idx <= e) by (subst idx; destruct (text_eqb _ _); lia).
  set (A := firstn idx lines). set (B := skipn idx lines).
  assert (HAB : lines = A ++ B) by (symmetry; apply firstn_skipn).
  assert (HB : B <> []).
  { intros E. apply (f_equal (@length text)) in E. subst B.
    rewrite length_skipn in E. cbn [length] in E. lia. }
  pose proof (well_split_splitlines _ (universal_newlines_is_no_cr t0)) as Hws.
  fold lines in Hws. rewrite HAB in Hws.
  destruct (@well_split_app A B Hws HB) as [HA _].
  exists t0, (join A), (join B), indent.
  split; [exact Egm|].
  split; [now rewrite <- join_app, <- HAB; unfold lines; rewrite join_splitlines|].
  split; [now apply terminated_join_complete|].
  split; [rewrite Hind; apply infer_maps_indent_space|].
  assert (Hgm : write_lines (fst (backup_file fs gm)) gm
                  (insert_map lines s e indent (format_map_key m w) pos) gm
                = Some (join A ++ new_entry_line indent (format_map_key m w) ++ join B)).
  { unfold write_lines, write_text, fs_write. rewrite String.eqb_refl.
    rewrite insert_map_cases. fold idx. unfold list_insert. fold A B.
    rewrite join_app. reflexivity. }
  destruct (truthy w); subst fs1; [|exact Hgm].
  rewrite add_workshop_id_other by assumption. exact Hgm.
Qed.

Lemma insertion_frames_text_witness :
  let fs := fs_of (Some (join doc_dust2)) None in
  let run := add_map_to_group fs gm_path sub_path (str "mg_active") (str "de_train")
               None false (str "end") in
  String.eqb gm_path sub_path = false
  /\ exists fs1 out,
       run = Ok (fs1, out)
       /\ In (AddedMap (str "mg_active") (str "de_train") false) out
       /\ exists t0 P Q indent,
            fs gm_path = Some t0
            /\ universal_newlines t0 = P ++ Q
            /\ terminated P = true
            /\ forallb is_space indent = true
            /\ fs1 gm_path
               = Some (P ++ new_entry_line indent (format_map_key (str "de_train") None)
                         ++ Q).
Proof.
  intros fs run. split; [reflexivity|].
  destruct run as [[fs1 out]|err] eqn:E; [|discriminate E].
  exists fs1, out.
  assert (Hin : In (AddedMap (str "mg_active") (str "de_train") false) out).
  { pose proof E as E'. vm_compute in E'. injection E' as _ <-. right. now left. }
  split; [reflexivity|]. split; [exact Hin|].
  exact (@insertion_frames_text fs fs1 gm_path sub_path (str "mg_active")
           (str "de_train") None false (str "end") out (str "mg_active")
           (str "de_train") eq_refl E Hin).
Defined.

(** X21.  A duplicate changes nothing but, possibly, the subscription
    list: when the key is already one of the keys of the located block, the
    run reports the skip first, makes no backup, and leaves every file other
    than the subscription list as it was; without a workshop id it returns
    the file system it was given and prints nothing more. *)
Theorem duplicate_changes_nothing (fs : FS) (gm sub : string) (g m : text)
    (w : option text) (dry : bool) (pos : text) (lines : list text)
    (gs s e : nat) (indent : text) :
  read_lines fs gm = Ok lines ->
  find_group_and_maps_block lines g = Ok (gs, s, e, indent) ->
  In (format_map_key m w) (current_maps_in_block lines s e) ->
  exists fs' rest,
    add_map_to_group fs gm sub g m w dry pos
    = Ok (fs', SkipMap g (format_map_key m w) :: rest)
    /\ (forall q, String.eqb q sub = false -> fs' q = fs q)
    /\ (forall p, ~ In (Backup p) rest)
    /\ (truthy w = false -> fs' = fs /\ rest = []).
Proof.
  intros Hr Hl Hin.
  rewrite (add_map_to_group_present fs gm sub g m w dry pos Hr Hl Hin).
  eexists _, _. split; [reflexivity|].
  destruct (truthy w).
  - split; [intros q Hq; now apply add_workshop_id_other|].
    split; [|discriminate].
    intros p. destruct (snd _); intros [Hc|[]]; discriminate Hc.
  - split; [reflexivity|]. split; [intros p []|]. now split.
Qed.

Lemma duplicate_changes_nothing_witness :
  let fs := fs_of (Some (join doc_dust2)) None in
  read_lines fs gm_path = Ok doc_dust2
  /\ find_group_and_maps_block doc_dust2 (str "mg_active") = Ok (2, 6, 7, repeat TAB 3)
  /\ In (format_map_key (str "de_dust2") None) (current_maps_in_block doc_dust2 6 7)
  /\ exists fs' rest,
       add_map_to_group fs gm_path sub_path (str "mg_active") (str "de_dust2") None
         false (str "end")
       = Ok (fs', SkipMap (str "mg_active") (format_map_key (str "de_dust2") None) :: rest)
       /\ (forall q, String.eqb q sub_path = false -> fs' q = fs q)
       /\ (forall p, ~ In (Backup p) rest)
       /\ (truthy None = false -> fs' = fs /\ rest = []).
Proof.
  intros fs.
  assert (Hin : In (format_map_key (str "de_dust2") None)
                  (current_maps_in_block doc_dust2 6 7)) by (now left).
  split; [reflexivity|]. split; [reflexivity|]. split; [exact Hin|].
  exact (@duplicate_changes_nothing fs gm_path sub_path (str "mg_active")
           (str "de_dust2") None false (str "end") doc_dust2 2 6 7 (repeat TAB 3)
           eq_refl eq_refl Hin).
Defined.

(** X22.  The footprint of [add_map_to_group]: a successful run leaves
    every file other than the primary file, its backup and the subscription
    list as it was, removes no file, and with dry-run returns the file
    system it was given. *)
Theorem add_map_to_group_footprint (fs fs1 : FS) (gm sub : string) (g m : text)
    (w : option text) (dry : bool) (pos : text) (out : list Msg) :
  add_map_to_group fs gm sub g m w dry pos = Ok (fs1, out) ->
  (forall q, String.eqb q gm = false -> String.eqb q (backup_path gm) = false ->
             String.eqb q sub = false -> fs1 q = fs q)
  /\ (forall q, exists_file fs q = true -> exists_file fs1 q = true)
  /\ (dry = true -> fs1 = fs).
Proof.
  intros H. split; [|split].
  - intros q H1 H2 H3.
    destruct (add_map_to_group_run _ _ _ _ _ _ _ _ H)
      as (t0 & gs & s & e & indent & _ & _ & Hfs & _).
    cbv zeta in Hfs.
    destruct (truthy w); subst fs1;
      [rewrite add_workshop_id_other by assumption|];
      now apply first_half_footprint.
  - intros q. now apply (add_map_to_group_keeps_files _ _ _ _ _ _ _ _ _ H).
  - intros ->.
    destruct (add_map_to_group_run _ _ _ _ _ _ _ _ H)
      as (t0 & gs & s & e & indent & _ & _ & Hfs & _).
    cbv zeta in Hfs. rewrite orb_true_r in Hfs.
    destruct (truthy w); [|exact Hfs].
    rewrite add_workshop_id_eq in Hfs.
    destruct (is_subscribed _ _ _); exact Hfs.
Qed.

Lemma add_map_to_group_footprint_witness :
  let fs := fs_of (Some (join doc_dust2)) None in
  let run := add_map_to_group fs gm_path sub_path (str "mg_active") (str "de_train")
               (Some (str "3070284539")) false (str "end") in
  exists fs1 out,
    run = Ok (fs1, out)
    /\ (forall q, String.eqb q gm_path = false ->
                  String.eqb q (backup_path gm_path) = false ->
                  String.eqb q sub_path = false -> fs1 q = fs q)
    /\ (forall q, exists_file fs q = true -> exists_file fs1 q = true)
    /\ (false = true -> fs1 = fs).
Proof.
  intros fs run. destruct run as [[fs1 out]|err] eqn:E; [|discriminate E].
  exists fs1, out. split; [reflexivity|].
  exact (@add_map_to_group_footprint fs fs1 gm_path sub_path (str "mg_active")
           (str "de_train") (Some (str "3070284539")) false (str "end") out E).
Defined.

Lemma second_run_reads_key (fs fs1 : FS) (gm sub : string) (g m : text)
    (w : option text) (pos : text) (out1 : list Msg) :
  String.eqb gm sub = false ->
  plain_key (format_map_key m w) = true ->
  add_map_to_group fs gm sub g m w false pos = Ok (fs1, out1) ->
  exists lines2 gs s e2 indent2,
    read_lines fs1 gm = Ok lines2
    /\ find_group_and_maps_block lines2 g = Ok (gs, s, e2, indent2)
    /\ In (format_map_key m w) (current_maps_in_block lines2 s e2).
Proof.
  intros Hsub Hkey H.
  destruct (add_map_to_group_primary _ _ _ _ _ _ _ Hsub H)
    as (t0 & gs & s & e & indent & Egm & El & E1).
  set (T := universal_newlines t0) in *.
  assert (HT : no_cr T = true) by apply universal_newlines_is_no_cr.
  destruct (existsb _ _) eqn:Edup.
  - exists (splitlines true T), gs, s, e, indent. rewrite Egm in E1.
    split; [now rewrite (read_lines_present _ _ E1)|]. split; [exact El|].
    now apply existsb_text_eqb.
  - rewrite insert_map_cases in E1.
    pose proof (find_group_and_maps_block_bounds _ _ El) as (_ & Hse & _).
    set (idx := if text_eqb pos (str "start") then s else e) in *.
    assert (Hidx : s <= idx <= e) by (subst idx; destruct (text_eqb _ _); lia).
    destruct (@reread_after_insert T g gs s e indent (format_map_key m w) idx
                HT El Hkey Hidx) as (e2 & indent2 & Hl2 & Hin2).
    eexists _, gs, s, e2, indent2. split; [exact (read_lines_present _ _ E1)|].
    split; assumption.
Qed.

Lemma first_run_subscribes (fs fs1 : FS) (gm sub : string) (g m : text)
    (w : option text) (pos : text) (out1 : list Msg) :
  String.eqb sub gm = false -> String.eqb sub (backup_path gm) = false ->
  truthy w = true -> plain_token (opt_text w) = true ->
  terminated (opt_text (fs sub)) = true ->
  add_map_to_group fs gm sub g m w false pos = Ok (fs1, out1) ->
  is_subscribed fs1 sub (opt_text w) = true.
Proof.
  intros H1 H2 Hw Htok Hterm H.
  destruct (add_map_to_group_run _ _ _ _ _ _ _ _ H)
    as (t0 & gs & s & e & indent & _ & _ & Hfs & _).
  cbv zeta in Hfs. rewrite Hw, orb_false_r in Hfs.
  match type of Hfs with
  | _ = fst (add_workshop_id ?f _ _ _) => set (fsA := f) in Hfs
  end.
  assert (HA : fsA sub = fs sub) by (apply first_half_footprint; assumption).
  rewrite add_workshop_id_eq in Hfs.
  destruct (is_subscribed fsA sub (opt_text w)) eqn:E; cbn [fst] in Hfs; subst fs1.
  - exact E.
  - unfold is_subscribed, fs_write. rewrite String.eqb_refl. cbn [opt_text].
    apply existsb_text_eqb. apply appended_token_is_member; [assumption|].
    now rewrite HA.
Qed.

(** X23.  A second run is a no-op on every file.  When the entry key is
    plain (no double quote, no line boundary, balanced braces), the
    workshop id, if there is one, is a plain token and the subscription list
    was absent, empty or ended with a line boundary, then after a successful
    run without dry-run the same command succeeds again, returns the file
    system as the first run left it, and prints that the map, and the
    workshop id if there is one, are already present. *)
Theorem second_run_is_noop (args : Args) (fs : FS) :
  dry_run args = false ->
  plain_key (format_map_key (map_name args) (workshop_id args)) = true ->
  (truthy (workshop_id args) = true ->
   plain_token (opt_text (workshop_id args)) = true
   /\ terminated (opt_text (fs (snd (resolve_paths (custom args))))) = true) ->
  snd (main args fs) = 0%Z ->
  let fs1 := fst (fst (main args fs)) in
  main args fs1
  = (fs1,
     SkipMap (group_name args) (format_map_key (map_name args) (workshop_id args))
     :: (if truthy (workshop_id args)
         then [SkipWorkshop (opt_text (workshop_id args))] else []),
     0%Z).
Proof.
  intros Hdry Hkey Hid Hcode fs1. subst fs1.
  unfold main in *. rewrite Hdry in *.
  assert (Hd : String.eqb (fst (resolve_paths (custom args)))
                 (snd (resolve_paths (custom args))) = false
               /\ String.eqb (snd (resolve_paths (custom args)))
                    (fst (resolve_paths (custom args))) = false
               /\ String.eqb (snd (resolve_paths (custom args)))
                    (backup_path (fst (resolve_paths (custom args)))) = false)
    by (destruct (custom args); repeat split; reflexivity).
  destruct (resolve_paths (custom args)) as [gm sub]. cbn [fst snd] in Hd, Hid.
  destruct Hd as (Hd1 & Hd2 & Hd3).
  destruct (custom args && _) eqn:Epre1; [discriminate Hcode|].
  destruct (negb (custom args) && _) eqn:Epre2; [discriminate Hcode|].
  destruct (add_map_to_group fs gm sub _ _ _ false _) as [[fs1 out1]|err] eqn:E1;
    [|discriminate Hcode].
  cbn [fst snd].
  pose proof (fun q => @add_map_to_group_keeps_files fs fs1 gm sub _ _ _ _ _ out1 q E1)
    as Hkeep.
  assert (Hgm : exists_file fs gm = true).
  { destruct (custom args), (exists_file fs gm); cbn in Epre1, Epre2; congruence. }
  assert (Hsub : custom args = true -> exists_file fs sub = true).
  { intros Hc. rewrite Hc in Epre1. rewrite Hgm in Epre1. cbn in Epre1.
    now apply negb_false_iff in Epre1. }
  rewrite (Hkeep gm Hgm).
  assert (Hpre1 : custom args && (negb true || negb (exists_file fs1 sub)) = false).
  { destruct (custom args); [|reflexivity].
    rewrite (Hkeep sub (Hsub eq_refl)). reflexivity. }
  rewrite Hpre1. cbn [negb]. rewrite andb_false_r.
  destruct (@second_run_reads_key fs fs1 gm sub _ _ _ _ out1 Hd1 Hkey E1)
    as (lines2 & gs & s & e2 & indent2 & Hr2 & Hl2 & Hin2).
  rewrite (add_map_to_group_present fs1 gm sub _ _ _ false _ Hr2 Hl2 Hin2).
  destruct (truthy (workshop_id args)) eqn:Hw; [|reflexivity].
  destruct (Hid eq_refl) as [Htok Hterm].
  pose proof (@first_run_subscribes fs fs1 gm sub _ _ _ _ out1 Hd2 Hd3 Hw Htok Hterm E1)
    as Hsubd.
  rewrite add_workshop_id_eq, Hsubd. reflexivity.
Qed.

Lemma second_run_is_noop_witness :
  let args := cli "mg_active" "de_train" (Some (str "3070284539")) false "start" in
  let fs := fs_of (Some (join doc_comment)) (Some (str "111" ++ [LF])) in
  let fs1 := fst (fst (main args fs)) in
  dry_run args = false
  /\ plain_key (format_map_key (map_name args) (workshop_id args)) = true
  /\ plain_token (opt_text (workshop_id args)) = true
  /\ terminated (opt_text (fs (snd (resolve_paths (custom args))))) = true
  /\ snd (main args fs) = 0%Z
  /\ fs1 sub_path = Some (str "111" ++ [LF] ++ str "3070284539" ++ [LF])
  /\ main args fs1
     = (fs1, [SkipMap (str "mg_active") (str "workshop/3070284539/de_train");
              SkipWorkshop (str "3070284539")], 0%Z).
Proof.
  intros args fs fs1.
  split; [reflexivity|]. split; [reflexivity|]. split; [reflexivity|].
  split; [reflexivity|]. split; [reflexivity|]. split; [reflexivity|].
  apply (@second_run_is_noop args fs); try reflexivity.
  intros _. split; reflexivity.
Defined.

Lemma locator_never_missing_file (lines : list text) (g : text) (path : string) :
  find_group_and_maps_block lines g <> Error (MissingFile path).
Proof.
  unfold find_group_and_maps_block.
  destruct (scan_until is_mapgroups_header lines 0) as [i0|]; [|discriminate].
  destruct (scan_until has_lbrace (skipn (i0 + 1) lines) (i0 + 1)) as [i1|];
    [|discriminate].
  destruct (find_group_header g _ _ _) as [gs|]; [|discriminate].
  destruct (scan_until has_lbrace (skipn gs lines) gs) as [j|]; [|discriminate].
  intros H. apply find_maps_block_error in H as [H|H]; discriminate H.
Qed.

(** X24.  The two failures that [main] handles itself write nothing.
    When the primary file is missing, or the subscription list is with the
    custom files, [main] prints one message and returns 1 without calling
    [add_map_to_group].  When the files that the check asks for are there,
    the group name can be printed and the locator fails on the lines of the
    primary file, [main] prints that error and returns 2.  In both cases the file system is the one it
    was given: no backup is made and nothing is written.  And no error that
    [main] prints is the missing-file error of [read_lines]: the existence
    check comes first. *)
Theorem main_failures (args : Args) (fs : FS) :
  let gm := fst (resolve_paths (custom args)) in
  let sub := snd (resolve_paths (custom args)) in
  ((exists_file fs gm = false \/ (custom args = true /\ exists_file fs sub = false)) ->
   exists msg, main args fs = (fs, [msg], 1%Z) /\ outcomes [msg] = [Precondition])
  /\ (forall t err,
        fs gm = Some t ->
        (custom args = true -> exists_file fs sub = true) ->
        utf8_encodable (group_name args) = true ->
        find_group_and_maps_block (splitlines true (universal_newlines t))
          (group_name args) = Error err ->
        main args fs = (fs, [Failed err], 2%Z))
  /\ (forall err path,
        snd (fst (main args fs)) = [Failed err] -> err <> MissingFile path).
Proof.
  intros gm sub. subst gm sub. unfold main, exists_file.
  destruct (resolve_paths (custom args)) as [gm sub]. cbn [fst snd].
  split; [|split].
  - intros [H|[Hc H]].
    + destruct (fs gm); [discriminate|]. cbn [negb orb].
      destruct (custom args); cbn [andb negb];
        [now exists CustomMissing|now eexists (GamemodesMissing _)].
    + rewrite Hc. destruct (fs sub); [discriminate|]. cbn [negb andb].
      rewrite orb_true_r. now exists CustomMissing.
  - intros t err Ht Hsub _ Hl. rewrite Ht. cbn [negb orb andb].
    rewrite andb_false_r.
    assert (Hpre : custom args && negb match fs sub with Some _ => true | None => false end
                   = false).
    { destruct (custom args); [|reflexivity]. now rewrite (Hsub eq_refl). }
    rewrite Hpre. now rewrite add_map_to_group_eq, (read_lines_present _ _ Ht), Hl.
  - intros err path.
    destruct (custom args), (fs gm) as [t|] eqn:Et, (fs sub);
      cbn [negb andb orb fst snd]; try (intros H; discriminate H);
      rewrite add_map_to_group_eq, (read_lines_present _ _ Et);
      (destruct (find_group_and_maps_block _ (group_name args))
         as [[[[gs s] e] indent]|err'] eqn:Hl; cbv zeta;
       [ destruct (truthy (workshop_id args)), (existsb _ _), (dry_run args);
           cbn [orb app fst snd];
           try destruct (snd (add_workshop_id _ _ _ _));
           intros H; discriminate H
       | cbn [fst snd]; intros H; injection H as <-; intros ->;
         exact (@locator_never_missing_file _ _ _ Hl) ]).
Qed.

Lemma main_failures_witness :
  let args := cli "mg_missing" "de_train" None false "end" in
  let fs := fs_of (Some (join doc_dust2)) None in
  fs gm_path = Some (join doc_dust2)
  /\ find_group_and_maps_block (splitlines true (universal_newlines (join doc_dust2)))
       (str "mg_missing")
     = Error (GroupNotFound (str "mg_missing"))
  /\ main args fs = (fs, [Failed (GroupNotFound (str "mg_missing"))], 2%Z)
  /\ (exists msg, main args (fs_of None None) = (fs_of None None, [msg], 1%Z)
                  /\ outcomes [msg] = [Precondition]).
Proof.
  intros args fs. split; [reflexivity|]. split; [reflexivity|].
  destruct (main_failures args fs) as (_ & H2 & _).
  destruct (main_failures args (fs_of None None)) as (H1 & _ & _).
  split.
  - apply (H2 (join doc_dust2)); [reflexivity|discriminate|reflexivity|reflexivity].
  - apply H1. left. reflexivity.
Defined.

Lemma find_maps_header_spec (rest : list text) (j : nat) (d : Z) (jm : nat) :
  find_maps_header rest j d = Some jm ->
  startswith (quoted (str "maps")) (strip (nth (jm - j) rest [])) = true
  /\ forall n, n < jm - j ->
       startswith (quoted (str "maps")) (strip (nth n rest [])) = false.
Proof.
  revert j d; induction rest as [|line rest IH]; intros j d;
    cbn [find_maps_header]; [discriminate|].
  destruct (d >? 0)%Z; [|discriminate].
  destruct (startswith (quoted (str "maps")) (strip line)) eqn:E.
  - intros H. injection H as <-. rewrite Nat.sub_diag. split; [exact E|].
    intros n Hn. lia.
  - intros H. pose proof (find_maps_header_bounds _ _ _ H) as Hb.
    destruct (IH _ _ H) as [H1 H2].
    replace (jm - j) with (S (jm - S j)) by lia. split; [exact H1|].
    intros [|n] Hn; [exact E|]. cbn [nth]. apply H2. lia.
Qed.

(** X25.  The way from the group header to the maps block.  On success
    there are a line [j], the first from the group header line on to hold an
    opening brace, and behind it a line [jm], the first whose trimmed content
    starts with the quoted word maps; the first line from [jm] on to hold an
    opening brace is the line before [maps_content_start]. *)
Theorem maps_block_entry (lines : list text) (g : text) (gs s e : nat) (indent : text) :
  find_group_and_maps_block lines g = Ok (gs, s, e, indent) ->
  exists j jm,
    gs <= j /\ j < jm /\ jm < s
    /\ has_lbrace (nth j lines []) = true
    /\ (forall i, gs <= i < j -> has_lbrace (nth i lines []) = false)
    /\ startswith (quoted (str "maps")) (strip (nth jm lines [])) = true
    /\ (forall i, j < i < jm ->
          startswith (quoted (str "maps")) (strip (nth i lines [])) = false)
    /\ has_lbrace (nth (s - 1) lines []) = true
    /\ (forall i, jm <= i < s - 1 -> has_lbrace (nth i lines []) = false).
Proof.
  intros H. apply find_group_and_maps_block_ok in H as (H & _).
  unfold maps_block_start in H.
  destruct (scan_until is_mapgroups_header lines 0) as [i0|]; [|discriminate].
  destruct (scan_until has_lbrace (skipn (i0 + 1) lines) (i0 + 1)) as [i1|];
    [|discriminate].
  destruct (find_group_header g _ _ _) as [gs0|]; [|discriminate].
  destruct (scan_until has_lbrace (skipn gs0 lines) gs0) as [j|] eqn:E3;
    [|discriminate].
  destruct (find_maps_header (skipn (j + 1) lines) (j + 1) 1) as [jm|] eqn:E4;
    [|discriminate].
  destruct (scan_until has_lbrace (skipn jm lines) jm) as [k|] eqn:E5;
    [|discriminate].
  injection H as <- <-.
  apply scan_until_spec in E3 as (B3 & P3 & N3).
  pose proof (find_maps_header_bounds _ _ _ E4) as B4.
  apply find_maps_header_spec in E4 as (P4 & N4).
  apply scan_until_spec in E5 as (B5 & P5 & N5).
  rewrite nth_skipn_shift in P3, P4, P5.
  replace (gs0 + (j - gs0)) with j in P3 by lia.
  replace (j + 1 + (jm - (j + 1))) with jm in P4 by lia.
  replace (jm + (k - jm)) with k in P5 by lia.
  exists j, jm. replace (k + 1 - 1) with k by lia.
  repeat split; try lia; try assumption.
  - intros i Hi. specialize (N3 (i - gs0) ltac:(lia)).
    rewrite nth_skipn_shift in N3. now replace (gs0 + (i - gs0)) with i in N3 by lia.
  - intros i Hi. specialize (N4 (i - (j + 1)) ltac:(lia)).
    rewrite nth_skipn_shift in N4.
    now replace (j + 1 + (i - (j + 1))) with i in N4 by lia.
  - intros i Hi. specialize (N5 (i - jm) ltac:(lia)).
    rewrite nth_skipn_shift in N5. now replace (jm + (i - jm)) with i in N5 by lia.
Qed.

Lemma maps_block_entry_witness :
  find_group_and_maps_block doc_dust2 (str "mg_active") = Ok (2, 6, 7, repeat TAB 3)
  /\ exists j jm,
       2 <= j /\ j < jm /\ jm < 6
       /\ has_lbrace (nth j doc_dust2 []) = true
       /\ (forall i, 2 <= i < j -> has_lbrace (nth i doc_dust2 []) = false)
       /\ startswith (quoted (str "maps")) (strip (nth jm doc_dust2 [])) = true
       /\ (forall i, j < i < jm ->
             startswith (quoted (str "maps")) (strip (nth i doc_dust2 [])) = false)
       /\ has_lbrace (nth (6 - 1) doc_dust2 []) = true
       /\ (forall i, jm <= i < 6 - 1 -> has_lbrace (nth i doc_dust2 []) = false).
Proof.
  split; [reflexivity|].
  apply (@maps_block_entry doc_dust2 (str "mg_active") 2 6 7 (repeat TAB 3)).
  reflexivity.
Defined.

Lemma find_seq_first (f : nat -> bool) (n s i : nat) :
  s <= i < s + n -> (forall j, s <= j < i -> f j = false) -> f i = true ->
  find f (seq s n) = Some i.
Proof.
  revert s; induction n as [|n IH]; intros s Hi Hbefore Hf; [lia|].
  cbn [seq find]. destruct (Nat.eq_dec s i) as [->|Hne]; [now rewrite Hf|].
  rewrite (Hbefore s) by lia. apply IH; [lia| |assumption].
  intros j Hj. apply Hbefore. lia.
Qed.

Lemma leading_ws_blank (line : text) :
  forallb is_space line = true -> leading_ws line = line.
Proof.
  intros H. unfold leading_ws, lstrip.
  assert (E : dropwhile is_space line = []).
  { induction line as [|c line IH]; [reflexivity|]. cbn [forallb] in H.
    apply andb_true_iff in H as [Hc Hl]. cbn [dropwhile]. rewrite Hc. now apply IH. }
  rewrite E. cbn [length]. rewrite Nat.sub_0_r. apply firstn_all.
Qed.

(** X26.  A blank line can become the indentation token, terminator
    included.  When the first line of the range that holds a tab or starts
    with a quote is made of whitespace only, the token is that whole line;
    if the line is a complete line, the entry line built with the token for a
    plain key holds a line boundary in its middle, and read again it is two
    lines: the blank line once more, and the entry without indentation. *)
Theorem blank_line_becomes_token (lines : list text) (s e i : nat) (key : text) :
  s <= i < e ->
  (forall j, s <= j < i ->
     contains TAB (nth j lines []) || starts_quoted (nth j lines []) = false) ->
  contains TAB (nth i lines []) = true ->
  forallb is_space (nth i lines []) = true ->
  complete_line (nth i lines []) = true ->
  plain_key key = true ->
  infer_maps_indent lines s e = nth i lines []
  /\ splitlines true (new_entry_line (infer_maps_indent lines s e) key)
     = [nth i lines []; new_entry_line [] key].
Proof.
  intros Hi Hbefore Htab Hblank Hcomplete Hkey.
  assert (E : infer_maps_indent lines s e = nth i lines []).
  { unfold infer_maps_indent. rewrite infer_maps_indent_loop_exact.
    rewrite (@find_seq_first _ (e - s) s i); [now apply leading_ws_blank|lia| |].
    - exact Hbefore.
    - now rewrite Htab. }
  split; [exact E|]. rewrite E. unfold new_entry_line at 1.
  rewrite splitlines_complete_line by assumption. f_equal.
  pose proof (entry_line_complete [] key Hkey eq_refl) as Hc. cbn [app] in Hc.
  rewrite <- (app_nil_r (quoted key ++ [TAB; TAB] ++ quoted [] ++ [LF])).
  rewrite splitlines_complete_line by exact Hc.
  reflexivity.
Qed.

Lemma blank_line_becomes_token_witness :
  find_group_and_maps_block doc_blank (str "mg_active")
    = Ok (2, 6, 8, repeat TAB 3 ++ [LF])
  /\ infer_maps_indent doc_blank 6 8 = nth 6 doc_blank []
  /\ splitlines true (new_entry_line (infer_maps_indent doc_blank 6 8) (str "de_train"))
     = [nth 6 doc_blank []; new_entry_line [] (str "de_train")].
Proof.
  split; [reflexivity|].
  apply (@blank_line_becomes_token doc_blank 6 8 6 (str "de_train")); try reflexivity.
  - lia.
  - intros j Hj. lia.
Defined.

(** * Duplicate detection *)

Lemma startswith_app (p s : text) :
  startswith p s = true -> exists rest, s = p ++ rest.
Proof.
  revert s; induction p as [|c p IH]; intros s H.
  - now exists s.
  - destruct s as [|x s]; cbn [startswith] in H; [discriminate|].
    apply andb_true_iff in H as [Hc Hp]. apply N.eqb_eq in Hc as ->.
    destruct (IH s Hp) as [rest ->]. now exists rest.
Qed.

Lemma dropwhile_app_stop (p : char -> bool) (a : text) (c : char) (rest : text) :
  p c = false -> dropwhile p (a ++ c :: rest) = dropwhile p a ++ c :: rest.
Proof.
  intros Hc. induction a as [|x a IH]; cbn [app dropwhile].
  - now rewrite Hc.
  - destruct (p x); [exact IH|reflexivity].
Qed.

(** Trimming on the right stops at the last character that is no space. *)
Lemma rstrip_keep (a : text) (c : char) (rest : text) :
  is_space c = false -> rstrip (a ++ c :: rest) = a ++ c :: rstrip rest.
Proof.
  intros Hc. unfold rstrip. rewrite rev_app_distr. cbn [rev].
  rewrite <- app_assoc. cbn [app].
  rewrite dropwhile_app_stop by assumption.
  rewrite rev_app_distr. cbn [rev]. rewrite rev_involutive, <- app_assoc.
  reflexivity.
Qed.

(** The script reads the key of an entry line as it stands in the line. *)
Lemma entry_line_for_key (k line : text) :
  entry_line_for k line = true ->
  starts_quoted line = true /\ nth 1 (split DQUOTE (strip line)) [] = k.
Proof.
  unfold entry_line_for. intros H. apply andb_true_iff in H as [Hk Hs].
  apply negb_true_iff in Hk. apply startswith_app in Hs as [rest Hl].
  unfold starts_quoted, strip. rewrite Hl. unfold quoted.
  replace ((DQUOTE :: k ++ [DQUOTE]) ++ rest) with ((DQUOTE :: k) ++ DQUOTE :: rest)
    by (cbn [app]; now rewrite <- app_assoc).
  rewrite rstrip_keep by reflexivity. cbn [app]. split; [reflexivity|].
  unfold split. cbn [split_acc]. rewrite N.eqb_refl.
  rewrite split_acc_body by assumption. reflexivity.
Qed.

Lemma skipn_nth_cons (A : Type) (s : nat) (l : list A) (d : A) :
  s < length l -> skipn s l = nth s l d :: skipn (S s) l.
Proof.
  revert l; induction s as [|s IH]; intros [|x l] H; cbn [length] in H; try lia.
  - reflexivity.
  - cbn [skipn nth]. apply IH. lia.
Qed.

(** On a block that holds the entries [ks], the loop of
    [current_maps_in_block] returns [ks]. *)
Lemma current_maps_loop_holds (lines : list text) (n s : nat) (ks : list text) :
  s + n <= length lines ->
  block_holds (firstn n (skipn s lines)) ks = true ->
  current_maps_loop lines (seq s n) = ks.
Proof.
  revert s ks; induction n as [|n IH]; intros s ks Hlen H.
  - cbn [firstn block_holds] in H. destruct ks; [reflexivity|discriminate].
  - rewrite (@skipn_nth_cons text s lines []) in H by lia.
    cbn [firstn block_holds] in H. cbn [seq current_maps_loop]. cbv zeta.
    destruct (starts_quoted (nth s lines [])) eqn:Hq.
    + destruct ks as [|k ks]; [discriminate|].
      apply andb_true_iff in H as [Hk H].
      apply entry_line_for_key in Hk as [_ Hk].
      unfold starts_quoted in Hq. rewrite Hq, (startswith_contains _ _ Hq), Hk.
      cbn [andb]. f_equal. apply IH; [lia|assumption].
    + unfold starts_quoted in Hq. rewrite Hq. cbn [andb].
      apply IH; [lia|assumption].
Qed.

(** The keys of a located block after an entry line was inserted at its
    start or at its end. *)
Lemma current_maps_after_insert (lines : list text) (s e : nat) (ws key : text) :
  s <= e <= length lines ->
  forallb is_space ws = true -> contains DQUOTE key = false ->
  current_maps_in_block (list_insert s (new_entry_line ws key) lines) s (S e)
  = key :: current_maps_in_block lines s e
  /\ current_maps_in_block (list_insert e (new_entry_line ws key) lines) s (S e)
     = current_maps_in_block lines s e ++ [key].
Proof.
  intros Hse Hws Hkey.
  unfold current_maps_in_block. replace (S e - s) with (S (e - s)) by lia. split.
  - set (L' := list_insert s _ lines).
    cbn [seq]. change (s :: seq (S s) (e - s)) with ([s] ++ seq (S s) (e - s)).
    rewrite current_maps_loop_app.
    rewrite (@current_maps_loop_entry L' s ws key Hws Hkey)
      by (apply nth_list_insert_at; lia).
    cbn [app]. f_equal. rewrite <- seq_shift. symmetry.
    apply current_maps_loop_ext. intros i Hi. apply in_seq in Hi.
    symmetry. apply nth_list_insert_after; lia.
  - set (L' := list_insert e _ lines).
    rewrite seq_S, current_maps_loop_app. replace (s + (e - s)) with e by lia.
    rewrite (@current_maps_loop_entry L' e ws key Hws Hkey)
      by (apply nth_list_insert_at; lia).
    f_equal.
    transitivity (current_maps_loop lines (map (fun i => i) (seq s (e - s))));
      [|now rewrite map_id].
    apply current_maps_loop_ext. intros i Hi. apply in_seq in Hi.
    apply nth_list_insert_before; lia.
Qed.

(** C5.  Duplicate detection is key-exact.  Take a document whose located
    maps block holds the entries [ks], among them the workshop key of a
    map (workshop/<id>/<map>) but not the bare map name.  The two keys are
    distinct, and the keys read from the block are the entries as they
    stand, workshop prefix included: the workshop key is among them and the
    membership test for the bare name is negative.  So adding the map
    without a workshop id is not taken for a duplicate: a backup is made, the file is written
    with a second entry line at the start or at the end of the block, and
    the block then holds the old entries and the bare name.  A key is
    skipped, and nothing is written, when it is one of the entries itself.
    The group and map names are taken to be encodable, so that the write
    and the messages go through. *)
Theorem duplicate_detection_key_exact (fs : FS) (gm sub : string) (g m id : text)
    (lines : list text) (gs s e : nat) (indent : text) (ks : list text) :
  read_lines fs gm = Ok lines ->
  find_group_and_maps_block lines g = Ok (gs, s, e, indent) ->
  block_holds (slice lines s e) ks = true ->
  id <> [] ->
  In (format_map_key m (Some id)) ks ->
  ~ In m ks ->
  contains DQUOTE m = false ->
  utf8_encodable g = true ->
  utf8_encodable m = true ->
  let new_line := indent ++ quoted m ++ [TAB; TAB; DQUOTE; DQUOTE; LF] in
  let at_start := firstn s lines ++ new_line :: skipn s lines in
  let at_end := firstn e lines ++ new_line :: skipn e lines in
  format_map_key m (Some id) <> format_map_key m None
  /\ current_maps_in_block lines s e = ks
  /\ In (format_map_key m (Some id)) (current_maps_in_block lines s e)
  /\ existsb (text_eqb (format_map_key m None)) (current_maps_in_block lines s e)
     = false
  /\ (exists fs',
        add_map_to_group fs gm sub g m None false (str "start")
        = Ok (fs', [Backup (backup_path gm); AddedMap g m false])
        /\ fs' gm = Some (join at_start)
        /\ fs' (backup_path gm) = fs gm
        /\ current_maps_in_block at_start s (S e) = m :: ks)
  /\ (exists fs',
        add_map_to_group fs gm sub g m None false (str "end")
        = Ok (fs', [Backup (backup_path gm); AddedMap g m false])
        /\ fs' gm = Some (join at_end)
        /\ fs' (backup_path gm) = fs gm
        /\ current_maps_in_block at_end s (S e) = ks ++ [m])
  /\ (forall k dry pos,
        In k ks ->
        add_map_to_group fs gm sub g k None dry pos = Ok (fs, [SkipMap g k])).
Proof.
  intros Hr Hl Hb Hid Hin Hnin Hq _ _ new_line at_start at_end.
  destruct (find_group_and_maps_block_bounds _ _ Hl) as (_ & Hse & Hind & _).
  assert (Hks : current_maps_in_block lines s e = ks).
  { unfold current_maps_in_block. apply current_maps_loop_holds; [lia|exact Hb]. }
  assert (Hws : forallb is_space indent = true)
    by (rewrite Hind; apply infer_maps_indent_space).
  assert (Hse' : s <= e <= length lines) by lia.
  destruct (@current_maps_after_insert lines s e indent m Hse' Hws Hq) as [Hs1 He1].
  rewrite Hks in Hs1, He1.
  assert (Hex : existsb (text_eqb (format_map_key m None))
                  (current_maps_in_block lines s e) = false).
  { rewrite Hks. cbn [format_map_key].
    destruct (existsb _ _) eqn:E; [|reflexivity].
    apply existsb_text_eqb in E. contradiction. }
  split; [now apply format_map_key_distinct|]. split; [exact Hks|].
  split; [now rewrite Hks|]. split; [exact Hex|].
  split; [|split].
  - eexists. split.
    { rewrite (@add_map_to_group_inserts fs gm sub g m None false (str "start")
                 lines gs s e indent Hr Hl Hex eq_refl).
      cbn [format_map_key app]. reflexivity. }
    split; [|split].
    + unfold write_lines, write_text, fs_write. now rewrite String.eqb_refl.
    + unfold write_lines, write_text, fs_write, backup_file. cbn [fst].
      now rewrite backup_path_neq, String.eqb_refl.
    + exact Hs1.
  - eexists. split.
    { rewrite (@add_map_to_group_inserts fs gm sub g m None false (str "end")
                 lines gs s e indent Hr Hl Hex eq_refl).
      cbn [format_map_key app]. reflexivity. }
    split; [|split].
    + unfold write_lines, write_text, fs_write. now rewrite String.eqb_refl.
    + unfold write_lines, write_text, fs_write, backup_file. cbn [fst].
      now rewrite backup_path_neq, String.eqb_refl.
    + exact He1.
  - intros k dry pos Hk. unfold add_map_to_group. rewrite Hr, Hl. cbv zeta.
    cbn [format_map_key]. rewrite Hks.
    rewrite (proj2 (existsb_text_eqb k ks) Hk). reflexivity.
Qed.

Lemma duplicate_detection_key_exact_witness :
  let fs := fs_of (Some (join doc_workshop)) None in
  let new_line :=
    repeat TAB 3 ++ quoted (str "de_dust2") ++ [TAB; TAB; DQUOTE; DQUOTE; LF] in
  let after := firstn 7 doc_workshop ++ new_line :: skipn 7 doc_workshop in
  read_lines fs gm_path = Ok doc_workshop
  /\ find_group_and_maps_block doc_workshop (str "mg_active") = Ok (2, 6, 7, repeat TAB 3)
  /\ block_holds (slice doc_workshop 6 7) [str "workshop/12345/de_dust2"] = true
  /\ format_map_key (str "de_dust2") (Some (str "12345")) = str "workshop/12345/de_dust2"
  /\ current_maps_in_block doc_workshop 6 7 = [str "workshop/12345/de_dust2"]
  /\ (exists fs',
        add_map_to_group fs gm_path sub_path (str "mg_active") (str "de_dust2") None
          false (str "end")
        = Ok (fs', [Backup (backup_path gm_path);
                    AddedMap (str "mg_active") (str "de_dust2") false])
        /\ fs' gm_path = Some (join after)
        /\ fs' (backup_path gm_path) = Some (join doc_workshop)
        /\ current_maps_in_block after 6 8
           = [str "workshop/12345/de_dust2"; str "de_dust2"])
  /\ add_map_to_group fs gm_path sub_path (str "mg_active")
       (str "workshop/12345/de_dust2") None false (str "end")
     = Ok (fs, [SkipMap (str "mg_active") (str "workshop/12345/de_dust2")]).
Proof.
  intros fs new_line after.
  assert (Hr : read_lines fs gm_path = Ok doc_workshop) by reflexivity.
  assert (Hl : find_group_and_maps_block doc_workshop (str "mg_active")
               = Ok (2, 6, 7, repeat TAB 3)) by reflexivity.
  assert (Hb : block_holds (slice doc_workshop 6 7) [str "workshop/12345/de_dust2"]
               = true) by reflexivity.
  assert (Hid : str "12345" <> []) by discriminate.
  assert (Hin : In (format_map_key (str "de_dust2") (Some (str "12345")))
                  [str "workshop/12345/de_dust2"]) by (left; reflexivity).
  assert (Hnin : ~ In (str "de_dust2") [str "workshop/12345/de_dust2"]).
  { intros [H|[]]. discriminate H. }
  destruct (@duplicate_detection_key_exact fs gm_path sub_path (str "mg_active")
              (str "de_dust2") (str "12345") doc_workshop 2 6 7 (repeat TAB 3)
              [str "workshop/12345/de_dust2"] Hr Hl Hb Hid Hin Hnin
              eq_refl eq_refl eq_refl) as (_ & H2 & _ & _ & _ & H4 & H5).
  split; [exact Hr|]. split; [exact Hl|]. split; [exact Hb|].
  split; [reflexivity|]. split; [exact H2|]. split; [exact H4|].
  apply H5. left. reflexivity.
Defined.
